(** * mcpgen and the MCP schema providers: a shallow embedding

    The development follows the layout of the repository:

    - [constant], [types]: the part of go/constant and go/types that the
      generator inspects (types are a graph in Go: a named type is a
      reference, resolved through the declarations of the program);
    - [GoLib]: the standard-library routines the generator calls
      (the verb q of fmt, strings.ToLower, reflect.StructTag.Get, ...);
    - cmd/mcpgen: extractFieldInfo, findEnumValues,
      goTypeToJSONSchemaType, findType, the template, generate and Run;
    - the generated file: what its package-level bindings evaluate to;
    - [Resolver]: the run-time lookup of package mcp and its cache;
    - [AsciiLib], [Demo]: a library for ASCII text and a small program,
      to evaluate the definitions;
    - the properties.
*)

From stdpp Require Import gmap strings list sorting.
From Stdlib Require Import Ascii.
From Stdlib Require String.

(** ** Bytes and strings

    A Go string is a sequence of bytes; [string] is a list of [ascii], and
    [String.compare] orders two strings byte by byte, as Go's [<] does. *)

Definition tab : string := String "009"%char EmptyString.
Definition nl : string := String "010"%char EmptyString.
Definition dq : string := String "034"%char EmptyString.

(** [concat_str l] writes the strings of [l] one after the other. *)
Definition concat_str (l : list string) : string :=
  foldr String.append EmptyString l.

(** [infix_of s t]: the bytes of [s] occur, contiguously, in [t]. *)
Definition infix_of (s t : string) : Prop :=
  ∃ pre post, t = pre +:+ s +:+ post.

(** strings.HasPrefix and strings.TrimPrefix. *)
Definition HasPrefix (s pre : string) : bool := String.prefix pre s.

Definition TrimPrefix (s pre : string) : string :=
  if HasPrefix s pre
  then String.substring (String.length pre) (String.length s - String.length pre) s
  else s.

(** strings.Split(s, sep) for a separator of one byte, the only use the
    generator makes of it ("," and "|"). The result is never empty:
    splitting the empty string gives one empty string. *)
Fixpoint Split (s : string) (sep : ascii) : list string :=
  match s with
  | EmptyString => [EmptyString]
  | String c rest =>
      if Ascii.eqb c sep then EmptyString :: Split rest sep
      else match Split rest sep with
           | [] => [String c EmptyString]
           | p :: ps => String c p :: ps
           end
  end.

(** sort.Strings: the strings in increasing byte-wise order. *)
Definition sort_Strings (l : list string) : list string :=
  merge_sort String.le l.

(** ** The standard-library routines taken as given

    These belong to Go's library, not to the repository; the generator is
    verified for whatever they compute. *)
Class GoLib := {
  (** fmt.Sprintf("%q", s): [s] as a double-quoted Go string literal *)
  quote : string → string;
  (** strings.ToLower *)
  ToLower : string → string;
  (** strings.TrimSpace *)
  TrimSpace : string → string;
  (** reflect.StructTag(tag).Get(key): the empty string when the key is absent *)
  StructTag_Get : string → string → string;
  (** token.IsExported, behind (types.Object).Exported *)
  IsExported : string → bool;
  (** format.Source: [None] when the source does not parse *)
  format_Source : string → option string;
  (** filepath.Join of two elements *)
  filepath_Join : string → string → string;
}.

(** ** go/constant *)
Module constant.
(** A constant's value, by its Kind. *)
Inductive Value :=
| Unknown
| Bool (b : bool)
| String (s : string)
| Int (z : Z)
| Float (num den : Z)
| Complex.

(** constant.StringVal of a value of Kind String. *)
Definition StringVal (v : Value) : string :=
  match v with String s => s | _ => EmptyString end.
End constant.

(** ** go/types *)
Module types.
Inductive BasicKind :=
| Invalid
| Bool
| Int | Int8 | Int16 | Int32 | Int64
| Uint | Uint8 | Uint16 | Uint32 | Uint64 | Uintptr
| Float32 | Float64
| Complex64 | Complex128
| String
| UnsafePointer
| UntypedBool | UntypedInt | UntypedRune | UntypedFloat
| UntypedComplex | UntypedString | UntypedNil.

(** The object of a declared type: its package and its name. Two named
    types are the same type exactly when they have the same object. *)
Record TypeName := { Pkg : string; Name : string }.

Global Instance TypeName_eq_dec : EqDecision TypeName.
Proof. solve_decision. Defined.

(** A type. [Named] is a reference to a declaration, so that a type may
    mention itself (a struct Node with a field of type pointer to Node,
    or a type T declared as pointer to T). A struct keeps its fields and
    their tags. *)
Inductive Type_ :=
| Basic (kind : BasicKind)
| Array (len : N) (elem : Type_)
| Slice (elem : Type_)
| Struct (fields : list Var) (tags : list string)
| Pointer (elem : Type_)
| Map (key elem : Type_)
| Chan (elem : Type_)
| Signature
| Interface
| Named (obj : TypeName)
with Var :=
| NewField (name : string) (typ : Type_).

(** The name and the type of a struct field (a types.Var). *)
Definition Var_Name (v : Var) : string := let (name, _) := v in name.
Definition Var_Type (v : Var) : Type_ := let (_, typ) := v in typ.

(** Struct.Tag(i): the empty string when the struct has no i-th tag. *)
Definition Tag (tags : list string) (i : nat) : string :=
  default EmptyString (tags !! i).

(** The objects a package scope holds. *)
Inductive Object :=
| TypeNameObj (typ : Type_)
| Const (typ : Type_) (val : constant.Value)
| VarObj (typ : Type_)
| Func.

(** The declarations of the loaded program: the underlying type of every
    named type and the scope of every package. *)
Record Universe := {
  underlyingOf : TypeName → Type_;
  scopeOf : string → gmap string Object;
}.

(** (Type).Underlying(). *)
Definition Underlying (U : Universe) (t : Type_) : Type_ :=
  match t with
  | Named obj => underlyingOf U obj
  | _ => t
  end.

(** types.Identical(t, named) for [named] a declared type, the form in
    which findEnumValues calls it: only that same named type is
    identical to it. *)
Definition Identical (t : Type_) (named : TypeName) : bool :=
  match t with
  | Named obj => bool_decide (obj = named)
  | _ => false
  end.

(** Scope.Names(): the names of the scope, sorted. *)
Definition Names (scope : gmap string Object) : list string :=
  sort_Strings (map_to_list scope).*1.
End types.

(** ** cmd/mcpgen: the data model *)

(** FieldInfo holds information about a struct field. *)
Module FieldInfo.
Record t := New {
  Name : string;
  JSONName : string;
  Type_ : string;
  Description : string;
  Required : bool;
  HasDefault : bool;
  Default : string;
  Enum : list string;
}.

Definition set_JSONName (s : string) (f : t) : t :=
  New (Name f) s (Type_ f) (Description f) (Required f) (HasDefault f) (Default f) (Enum f).
Definition set_Type (s : string) (f : t) : t :=
  New (Name f) (JSONName f) s (Description f) (Required f) (HasDefault f) (Default f) (Enum f).
Definition set_Description (s : string) (f : t) : t :=
  New (Name f) (JSONName f) (Type_ f) s (Required f) (HasDefault f) (Default f) (Enum f).
Definition set_Required (b : bool) (f : t) : t :=
  New (Name f) (JSONName f) (Type_ f) (Description f) b (HasDefault f) (Default f) (Enum f).
Definition set_Default (s : string) (f : t) : t :=
  New (Name f) (JSONName f) (Type_ f) (Description f) (Required f) true s (Enum f).
Definition set_Enum (l : list string) (f : t) : t :=
  New (Name f) (JSONName f) (Type_ f) (Description f) (Required f) (HasDefault f) (Default f) l.

(** [&FieldInfo{Name: name}]: every other field has its zero value. *)
Definition zero (name : string) : t :=
  New name EmptyString EmptyString EmptyString false false EmptyString [].
End FieldInfo.

(** TypeInfo holds information about a type to generate a schema for. *)
Module TypeInfo.
Record t := New {
  Name : string;
  Fields : list FieldInfo.t;
}.
End TypeInfo.

(** The errors of a generation run. *)
Inductive GenError :=
| TypeNotFound (name pkg : string)
| NotAType (name : string)
| NotANamedType (name : string)
| NotAStructType (name : string)
| FindingType (typeName : string) (err : GenError)
| ExecutingTemplate
| LoadingPackage
| NoPackagesFound (dir : string)
| PackageErrors.

(** The outcome of a call: a value, a returned error, a run-time panic
    (a nil dereference), or a recursion deeper than the [fuel] it was
    given. *)
Inductive outcome (A : Type) :=
| Ok (a : A)
| Fail (err : GenError)
| Panic
| OutOfFuel.
Arguments Ok {A} a.
Arguments Fail {A} err.
Arguments Panic {A}.
Arguments OutOfFuel {A}.

(** ** cmd/mcpgen: from a struct to its field descriptors *)
Section extraction.
Context `{L : GoLib} (U : types.Universe).

(** getTagValue extracts a value from a struct tag. *)
Definition getTagValue (tag key : string) : string := StructTag_Get tag key.

(** goTypeToJSONSchemaType converts a Go type to a JSON schema type
    string. The Go function calls itself on the element of a pointer;
    [fuel] bounds the depth of these calls, and [None] is a recursion
    that needs more. *)
Fixpoint goTypeToJSONSchemaType (fuel : nat) (t : types.Type_) : option string :=
  match fuel with
  | 0 => None
  | S fuel =>
      match types.Underlying U t with
      | types.Basic kind =>
          match kind with
          | types.Bool => Some "boolean"
          | types.Int | types.Int8 | types.Int16 | types.Int32 | types.Int64
          | types.Uint | types.Uint8 | types.Uint16 | types.Uint32 | types.Uint64 =>
              Some "integer"
          | types.Float32 | types.Float64 => Some "number"
          | types.String => Some "string"
          | _ => Some "object"
          end
      | types.Slice _ => Some "array"
      | types.Map _ _ => Some "object"
      | types.Struct _ _ => Some "object"
      | types.Pointer elem => goTypeToJSONSchemaType fuel elem
      | _ => Some "object"
      end
  end.

(** The string value a scope object contributes to the enum of [named]:
    the body of the loop of findEnumValues. *)
Definition enumValueOf (named : types.TypeName) (obj : option types.Object)
    : option string :=
  match obj with
  | Some (types.Const typ val) =>
      if types.Identical typ named then
        match val with
        | constant.String _ => Some (constant.StringVal val)
        | _ => None
        end
      else None
  | _ => None
  end.

(** The loop of findEnumValues through all const declarations in the
    package of the type: the values it appends, in the order of the
    names. *)
Definition constValues (named : types.TypeName) : list string :=
  let scope := types.scopeOf U (types.Pkg named) in
  omap (λ name, enumValueOf named (scope !! name)) (types.Names scope).

(** findEnumValues finds const values defined for a named string type.
    A nil result is the empty list. *)
Definition findEnumValues (named : types.TypeName) : list string :=
  match types.Underlying U (types.Named named) with
  | types.Basic types.String =>
      let values := constValues named in
      let values := sort_Strings values in
      if decide (2 ≤ length values) then values else []
  | _ => []
  end.

(** The json tag of extractFieldInfo: the wire name, or [None] for a
    field that is ignored. *)
Definition applyJSONTag (tag : string) (info : FieldInfo.t) : option FieldInfo.t :=
  let jsonTag := getTagValue tag "json" in
  if decide (jsonTag = EmptyString) then Some info
  else
    let parts := Split jsonTag ","%char in
    let part0 := default EmptyString (head parts) in
    if decide (part0 = "-") then None
    else if decide (part0 = EmptyString) then Some info
    else Some (FieldInfo.set_JSONName part0 info).

(** One directive of the jsonschema tag. *)
Definition applyDirective (info : FieldInfo.t) (part : string) : FieldInfo.t :=
  let part := TrimSpace part in
  if decide (part = "required") then FieldInfo.set_Required true info
  else if HasPrefix part "description=" then
    FieldInfo.set_Description (TrimPrefix part "description=") info
  else if HasPrefix part "default=" then
    FieldInfo.set_Default (TrimPrefix part "default=") info
  else if HasPrefix part "enum=" then
    FieldInfo.set_Enum (Split (TrimPrefix part "enum=") "|"%char) info
  else info.

(** The jsonschema tag of extractFieldInfo. *)
Definition applySchemaTag (tag : string) (info : FieldInfo.t) : FieldInfo.t :=
  let schemaTag := getTagValue tag "jsonschema" in
  if decide (schemaTag = EmptyString) then info
  else foldl applyDirective info (Split schemaTag ","%char).

(** The enum detection that ends extractFieldInfo. *)
Definition detectEnum (fieldType : types.Type_) (info : FieldInfo.t) : FieldInfo.t :=
  if decide (length (FieldInfo.Enum info) = 0 ∧ FieldInfo.Type_ info = "string") then
    match fieldType with
    | types.Named named =>
        let enumValues := findEnumValues named in
        if decide (0 < length enumValues) then FieldInfo.set_Enum enumValues info
        else info
    | _ => info
    end
  else info.

(** extractFieldInfo extracts schema-relevant information from a struct
    field; [Some None] is Go's nil, a field that gets no descriptor. *)
Definition extractFieldInfo (fuel : nat) (field : types.Var) (tag : string)
    : option (option FieldInfo.t) :=
  if negb (IsExported (types.Var_Name field)) then Some None
  else
    let info := FieldInfo.zero (types.Var_Name field) in
    let info := FieldInfo.set_JSONName (types.Var_Name field) info in
    match applyJSONTag tag info with
    | None => Some None
    | Some info =>
        let info := applySchemaTag tag info in
        match goTypeToJSONSchemaType fuel (types.Var_Type field) with
        | None => None
        | Some ty =>
            let info := FieldInfo.set_Type ty info in
            Some (Some (detectEnum (types.Var_Type field) info))
        end
    end.

(** The loop of findType over the fields of the struct, from index [i]. *)
Fixpoint extractFields (fuel : nat) (i : nat) (fields : list types.Var)
    (tags : list string) : option (list FieldInfo.t) :=
  match fields with
  | [] => Some []
  | field :: rest =>
      match extractFieldInfo fuel field (types.Tag tags i) with
      | None => None
      | Some fieldInfo =>
          match extractFields fuel (S i) rest tags with
          | None => None
          | Some infos =>
              Some (match fieldInfo with
                    | Some info => info :: infos
                    | None => infos
                    end)
          end
      end
  end.

(** findType finds a type by name in the package [pkgPath] (named
    [pkgName]) and extracts its field information. *)
Definition findType (fuel : nat) (pkgPath pkgName name : string)
    : outcome TypeInfo.t :=
  match types.scopeOf U pkgPath !! name with
  | None => Fail (TypeNotFound name pkgName)
  | Some (types.TypeNameObj typ) =>
      match typ with
      | types.Named named =>
          match types.Underlying U typ with
          | types.Struct fields tags =>
              match extractFields fuel 0 fields tags with
              | Some infos => Ok (TypeInfo.New name infos)
              | None => OutOfFuel
              end
          | _ => Fail (NotAStructType name)
          end
      | _ => Fail (NotANamedType name)
      end
  | Some _ => Fail (NotAType name)
  end.
End extraction.

(** ** cmd/mcpgen: the template

    The schema literal the template spells out for one type: the object
    schema with one property per field, the required names, and
    additional properties forbidden. *)
Module SchemaLit.
(** One entry of Properties. [Default] is the json.RawMessage, [None]
    when the entry has none. *)
Record Property := NewProperty {
  Type_ : string;
  Description : string;
  Default : option string;
  Enum : list string;
}.

(** What AdditionalProperties is set to: nothing, or the schema that no
    value satisfies, [&jsonschema.Schema{Not: &jsonschema.Schema{}}]. *)
Inductive Additional := Unset | NotAnything.

Record t := New {
  Properties : list (string * Property);
  Required : list string;
  AdditionalProperties : Additional;
}.
End SchemaLit.

Section template.
Context `{L : GoLib}.

(** [ind n]: [n] tabs. *)
Definition ind (n : nat) : string := concat_str (replicate n tab).

(** The template function formatDefault. *)
Definition formatDefault (f : FieldInfo.t) : string :=
  if decide (FieldInfo.Type_ f = "string") then
    "json.RawMessage(" +:+ quote (quote (FieldInfo.Default f)) +:+ ")"
  else if decide (FieldInfo.Type_ f = "boolean" ∨ FieldInfo.Type_ f = "integer"
                  ∨ FieldInfo.Type_ f = "number") then
    "json.RawMessage(" +:+ quote (FieldInfo.Default f) +:+ ")"
  else
    "json.RawMessage(" +:+ quote (FieldInfo.Default f) +:+ ")".

(** [{{range $i, $e := .Enum}}{{if $i}}, {{end}}{{quote $e}}{{end}}] *)
Definition tmpl_enum (enum : list string) : string :=
  concat_str
    (imap (λ i e, (if decide (i = 0) then EmptyString else ", ") +:+ quote e) enum).

(** The body of [{{- range .Fields}}] under Properties. *)
Definition tmpl_property (f : FieldInfo.t) : string :=
  concat_str [
    nl; ind 3; quote (FieldInfo.JSONName f); ": {";
    nl; ind 4; "Type: "; quote (FieldInfo.Type_ f); ",";
    if decide (FieldInfo.Description f = EmptyString) then EmptyString
    else concat_str [nl; ind 4; "Description: "; quote (FieldInfo.Description f); ","];
    if FieldInfo.HasDefault f
    then concat_str [nl; ind 4; "Default: "; formatDefault f; ","]
    else EmptyString;
    if decide (FieldInfo.Enum f = []) then EmptyString
    else concat_str [nl; ind 4; "Enum: []any{ "; tmpl_enum (FieldInfo.Enum f); " },"];
    nl; ind 3; "},"
  ].

(** The body of [{{- range .Fields}}] under Required. *)
Definition tmpl_required (f : FieldInfo.t) : string :=
  if FieldInfo.Required f
  then concat_str [nl; ind 3; quote (FieldInfo.JSONName f); ","]
  else EmptyString.

(** The line that binds the resolved schema of a type. *)
Definition tmpl_resolved_binding (name : string) : string :=
  concat_str [ind 1; "_"; ToLower name; "Resolved, _ = _"; ToLower name;
              "Schema.Resolve(nil)"; nl].

(** The schema literal of a type, from [&jsonschema.Schema{] to its
    closing brace. *)
Definition tmpl_schema (fields : list FieldInfo.t) : string :=
  concat_str [
    "&jsonschema.Schema{"; nl;
    ind 2; "Type: "; dq; "object"; dq; ","; nl;
    ind 2; "Properties: map[string]*jsonschema.Schema{";
    concat_str (tmpl_property <$> fields);
    nl; ind 2; "},"; nl;
    ind 2; "Required: []string{";
    concat_str (tmpl_required <$> fields);
    nl; ind 2; "},"; nl;
    ind 2; "AdditionalProperties: &jsonschema.Schema{Not: &jsonschema.Schema{}},"; nl;
    ind 1; "}"
  ].

(** The body of [{{range .Types}}]. *)
Definition tmpl_type (t : TypeInfo.t) : string :=
  let name := TypeInfo.Name t in
  concat_str [
    nl; "// "; name; " schema variables (generated)"; nl;
    "var ("; nl;
    ind 1; "_"; ToLower name; "Schema = "; tmpl_schema (TypeInfo.Fields t); nl;
    tmpl_resolved_binding name;
    ")"; nl;
    nl;
    "// MCPSchema returns the pre-computed JSON schema for "; name; "."; nl;
    "// This implements mcp.SchemaProvider."; nl;
    "func ("; name; ") MCPSchema() *jsonschema.Schema {"; nl;
    ind 1; "return _"; ToLower name; "Schema"; nl;
    "}"; nl;
    nl;
    "// MCPResolvedSchema returns the pre-resolved JSON schema for "; name; "."; nl;
    "// This implements mcp.ResolvedSchemaProvider."; nl;
    "func ("; name; ") MCPResolvedSchema() *jsonschema.Resolved {"; nl;
    ind 1; "return _"; ToLower name; "Resolved"; nl;
    "}"; nl
  ].

(** What precedes [{{range .Types}}]. *)
Definition tmpl_header (package : string) (hasDefaults : bool) : string :=
  concat_str [
    "// Code generated by mcpgen. DO NOT EDIT."; nl;
    nl;
    "package "; package; nl;
    nl;
    "import (";
    if hasDefaults
    then concat_str [nl; ind 1; dq; "encoding/json"; dq; nl]
    else EmptyString;
    nl; ind 1; dq; "github.com/google/jsonschema-go/jsonschema"; dq; nl;
    ")"; nl;
    nl
  ].

(** tmpl.Execute on the data of generate. An element of Types is a
    pointer: on a nil one ([None]) the execution fails. *)
Definition tmpl_Execute (package : string) (typs : list (option TypeInfo.t))
    (hasDefaults : bool) : option string :=
  bodies ← mapM (fmap tmpl_type) typs;
  Some (concat_str [tmpl_header package hasDefaults; concat_str bodies; nl]).

(** The schema value that the literal of [tmpl_schema] denotes. *)
Definition propertyOf (f : FieldInfo.t) : string * SchemaLit.Property :=
  (FieldInfo.JSONName f,
   SchemaLit.NewProperty
     (FieldInfo.Type_ f)
     (FieldInfo.Description f)
     (if FieldInfo.HasDefault f
      then Some (if decide (FieldInfo.Type_ f = "string")
                 then quote (FieldInfo.Default f) else FieldInfo.Default f)
      else None)
     (FieldInfo.Enum f)).

Definition requiredOf (fields : list FieldInfo.t) : list string :=
  FieldInfo.JSONName <$> filter (λ f, FieldInfo.Required f = true) fields.

Definition schemaOf (fields : list FieldInfo.t) : SchemaLit.t :=
  SchemaLit.New (propertyOf <$> fields) (requiredOf fields) SchemaLit.NotAnything.

(** The Go source of a schema value, in the layout of the template. *)
Definition print_property (kp : string * SchemaLit.Property) : string :=
  let p := kp.2 in
  concat_str [
    nl; ind 3; quote kp.1; ": {";
    nl; ind 4; "Type: "; quote (SchemaLit.Type_ p); ",";
    if decide (SchemaLit.Description p = EmptyString) then EmptyString
    else concat_str [nl; ind 4; "Description: "; quote (SchemaLit.Description p); ","];
    match SchemaLit.Default p with
    | Some raw => concat_str [nl; ind 4; "Default: json.RawMessage("; quote raw; "),"]
    | None => EmptyString
    end;
    if decide (SchemaLit.Enum p = []) then EmptyString
    else concat_str [nl; ind 4; "Enum: []any{ "; tmpl_enum (SchemaLit.Enum p); " },"];
    nl; ind 3; "},"
  ].

Definition print_additional (a : SchemaLit.Additional) : string :=
  match a with
  | SchemaLit.NotAnything =>
      concat_str [ind 2; "AdditionalProperties: &jsonschema.Schema{Not: &jsonschema.Schema{}},"; nl]
  | SchemaLit.Unset => EmptyString
  end.

Definition print_schema (s : SchemaLit.t) : string :=
  concat_str [
    "&jsonschema.Schema{"; nl;
    ind 2; "Type: "; dq; "object"; dq; ","; nl;
    ind 2; "Properties: map[string]*jsonschema.Schema{";
    concat_str (print_property <$> SchemaLit.Properties s);
    nl; ind 2; "},"; nl;
    ind 2; "Required: []string{";
    concat_str ((λ n, concat_str [nl; ind 3; quote n; ","]) <$> SchemaLit.Required s);
    nl; ind 2; "},"; nl;
    print_additional (SchemaLit.AdditionalProperties s);
    ind 1; "}"
  ].
End template.

(** ** cmd/mcpgen: generate and Run *)

(** Generator generates SchemaProvider implementations. Of the loaded
    package it keeps the name and the path, which selects the scope. *)
Module Generator.
Record t := New {
  dir : string;
  types : list string;
  pkgName : string;
  pkgPath : string;
  typeMap : gmap string TypeInfo.t;
}.
End Generator.

(** What generate hands to os.WriteFile, and whether it warned that the
    code could not be formatted. *)
Record Written := NewWritten {
  file : string;
  content : string;
  warned : bool;
}.

(** A package as packages.Load returns it. *)
Record Package := NewPackage {
  Package_Name : string;
  Package_Path : string;
  Package_Errors : nat;
}.

Section generate.
Context `{L : GoLib} (U : types.Universe).

(** The -output flag. *)
Variable outputFile : string.

(** The first loop of generate: does any type have a field with a
    default? The loop stops at the first one; a name that typeMap does
    not hold gives a nil pointer, whose Fields cannot be read. *)
Fixpoint hasDefaults (typeMap : gmap string TypeInfo.t) (names : list string)
    : option bool :=
  match names with
  | [] => Some false
  | name :: rest =>
      match typeMap !! name with
      | None => None
      | Some info =>
          if existsb FieldInfo.HasDefault (TypeInfo.Fields info) then Some true
          else hasDefaults typeMap rest
      end
  end.

(** generate creates the output file with SchemaProvider
    implementations. *)
Definition generate (g : Generator.t) : outcome Written :=
  match hasDefaults (Generator.typeMap g) (Generator.types g) with
  | None => Panic
  | Some hasDefaults =>
      let typs := (λ name, Generator.typeMap g !! name) <$> Generator.types g in
      match tmpl_Execute (Generator.pkgName g) typs hasDefaults with
      | None => Fail ExecutingTemplate
      | Some buf =>
          let output :=
            if decide (outputFile = EmptyString)
            then filepath_Join (Generator.dir g) (Generator.pkgName g +:+ "_mcp_gen.go")
            else outputFile in
          match format_Source buf with
          | Some formatted => Ok (NewWritten output formatted false)
          | None => Ok (NewWritten output buf true)
          end
      end
  end.

(** The loop of Run that fills typeMap. *)
Fixpoint findTypes (fuel : nat) (pkg : Package) (names : list string)
    (typeMap : gmap string TypeInfo.t) : outcome (gmap string TypeInfo.t) :=
  match names with
  | [] => Ok typeMap
  | typeName :: rest =>
      match findType U fuel (Package_Path pkg) (Package_Name pkg) typeName with
      | Ok info => findTypes fuel pkg rest (<[typeName := info]> typeMap)
      | Fail err => Fail (FindingType typeName err)
      | Panic => Panic
      | OutOfFuel => OutOfFuel
      end
  end.

(** Run generates the schema implementations, from what packages.Load
    returned ([None]: it returned an error). *)
Definition Run (fuel : nat) (dir : string) (names : list string)
    (loaded : option (list Package)) : outcome Written :=
  match loaded with
  | None => Fail LoadingPackage
  | Some [] => Fail (NoPackagesFound dir)
  | Some (pkg :: _) =>
      if decide (0 < Package_Errors pkg) then Fail PackageErrors
      else
        match findTypes fuel pkg names ∅ with
        | Ok typeMap =>
            generate (Generator.New dir names (Package_Name pkg) (Package_Path pkg) typeMap)
        | Fail err => Fail err
        | Panic => Panic
        | OutOfFuel => OutOfFuel
        end
  end.
End generate.

(** ** The generated file at run time

    For each type the generated file declares two package-level variables
    and two methods returning them. *)
Section artifact.
Context `{L : GoLib} {Resolved Err : Type}.

(** jsonschema's Resolve(nil) on a schema: the two results of the Go
    call, each possibly nil. *)
Variable Resolve : SchemaLit.t → option Resolved * option Err.

Record Bindings := NewBindings {
  schemaVar : SchemaLit.t;
  resolvedVar : option Resolved;
}.

(** The initialisation of the two variables: the schema literal, and
    the first result of Resolve, the second going to the blank
    identifier. *)
Definition initBindings (t : TypeInfo.t) : Bindings :=
  let schema := schemaOf (TypeInfo.Fields t) in
  let '(resolved, _) := Resolve schema in
  NewBindings schema resolved.

(** The two generated methods. *)
Definition MCPSchema (b : Bindings) : SchemaLit.t := schemaVar b.
Definition MCPResolvedSchema (b : Bindings) : option Resolved := resolvedVar b.
End artifact.

(** ** mcp: the run-time resolver and its cache

    schema_provider.go declares the two interfaces and the tests call
    setSchema and globalSchemaCache; their bodies are in server.go and
    schema_cache.go, which this development takes from the specification
    (section 4.5, Runtime Resolver & Cache). *)
Module Resolver.
Section resolver.
(** Type identities (reflect.Type), schema documents, resolved schemas
    and resolution errors. *)
Context {K : Type} `{Countable K} {Schema Resolved Err : Type}.

(** Modelled from the spec: the Override Protocol (section 4.4). A type
    implements neither interface, SchemaProvider alone, or
    ResolvedSchemaProvider, which embeds SchemaProvider; the accessors are
    stable across calls, so a capability is the values they return. *)
Inductive Capability :=
| NoProvider
| BasicProvider (doc : Schema)
| ResolvedProvider (doc : Schema) (resolved : Resolved).

(** The program the resolver runs in: what each type implements, the
    run-time structural analysis, and the external resolution routine,
    which may reject a document. *)
Variable capability : K → Capability.
Variable analyse : K → Schema.
Variable Resolve : Schema → Err + Resolved.

(** What a run does besides answering: each structural analysis and each
    call of the resolution routine, with the type it was done for. *)
Inductive Event :=
| Analysed (t : K)
| ResolutionRun (t : K) (doc : Schema).

(** Modelled from the spec: the cache (CacheEntry of section 3, keyed by
    type identity), with the record of the work done so far. *)
Record State := NewState {
  cache : gmap K (Schema * Resolved);
  trace : list Event;
}.

Definition init : State := NewState ∅ [].

(** Resolver code runs in a state and returns a value or an error. *)
Definition M (A : Type) : Type := State → (Err + A) * State.

Definition ret {A} (a : A) : M A := λ s, (inr a, s).
Definition fail {A} (e : Err) : M A := λ s, (inl e, s).
Definition bind {A B} (k : A → M B) (m : M A) : M B :=
  λ s, match m s with
       | (inr a, s') => k a s'
       | (inl e, s') => (inl e, s')
       end.
Definition emit (ev : Event) : M unit :=
  λ s, (inr (), NewState (cache s) (trace s ++ [ev])).

#[local] Instance M_ret : MRet M := @ret.
#[local] Instance M_bind : MBind M := @bind.

(** Modelled from the spec: globalSchemaCache.getByType, the lookup of a
    cache entry with its presence flag. *)
Definition getByType (t : K) : M (option (Schema * Resolved)) :=
  λ s, (inr (cache s !! t), s).

(** Modelled from the spec: the store of step 6, which publishes the
    entry of a type. *)
Definition setByType (t : K) (doc : Schema) (resolved : Resolved) : M unit :=
  λ s, (inr (), NewState (<[t := (doc, resolved)]> (cache s)) (trace s)).

(** Modelled from the spec: the test-only reset, clearing all cached
    entries. *)
Definition resetForTesting : M unit :=
  λ s, (inr (), NewState ∅ (trace s)).

(** The two pieces of resolution work. *)
Definition runAnalysis (t : K) : M Schema :=
  emit (Analysed t);; ret (analyse t).

Definition runResolution (t : K) (doc : Schema) : M Resolved :=
  emit (ResolutionRun t doc);;
  match Resolve doc with
  | inr resolved => ret resolved
  | inl e => fail e
  end.

(** Modelled from the spec: resolve, the run-time lookup surface (setSchema
    in the tests), steps 2 to 6 of section 4.5: a cached entry is
    returned as it is; otherwise the document and its resolution come
    from ResolvedProvider, from BasicProvider and the resolution routine,
    or from structural analysis and the resolution routine, and are
    stored. A failed resolution returns the error and stores nothing. *)
Definition resolve (t : K) : M (Schema * Resolved) :=
  cached ← getByType t;
  match cached with
  | Some entry => ret entry
  | None =>
      match capability t with
      | ResolvedProvider doc resolved =>
          setByType t doc resolved;; ret (doc, resolved)
      | BasicProvider doc =>
          resolved ← runResolution t doc;
          setByType t doc resolved;; ret (doc, resolved)
      | NoProvider =>
          doc ← runAnalysis t;
          resolved ← runResolution t doc;
          setByType t doc resolved;; ret (doc, resolved)
      end
  end.

(** A sequence of requests, one after the other; the state it leaves. *)
Definition requests (ts : list K) (s : State) : State :=
  foldl (λ s t, (resolve t s).2) s ts.

(** The work recorded for a type. *)
Definition is_analysis (t : K) (ev : Event) : bool :=
  match ev with Analysed t' => bool_decide (t' = t) | _ => false end.
Definition is_resolution (t : K) (ev : Event) : bool :=
  match ev with ResolutionRun t' _ => bool_decide (t' = t) | _ => false end.

Definition analyses (t : K) (tr : list Event) : nat :=
  length (filter (λ ev, is_analysis t ev = true) tr).
Definition resolutions (t : K) (tr : list Event) : nat :=
  length (filter (λ ev, is_resolution t ev = true) tr).

(** The document the resolver uses for a type. *)
Definition documentOf (t : K) : Schema :=
  match capability t with
  | ResolvedProvider doc _ => doc
  | BasicProvider doc => doc
  | NoProvider => analyse t
  end.

(** What holds of a type in every state that requests lead to: an entry
    is the document of the type with its resolution, and the work
    recorded for the type is that of one successful resolution; without
    an entry, the work recorded is that of failed attempts. *)
Definition consistent (s : State) (t : K) : Prop :=
  match cache s !! t with
  | Some (doc, resolved) =>
      doc = documentOf t ∧
      match capability t with
      | ResolvedProvider _ resolved' =>
          resolved = resolved' ∧
          resolutions t (trace s) = 0 ∧ analyses t (trace s) = 0
      | BasicProvider _ =>
          Resolve doc = inr resolved ∧
          resolutions t (trace s) = 1 ∧ analyses t (trace s) = 0
      | NoProvider =>
          Resolve doc = inr resolved ∧
          resolutions t (trace s) = 1 ∧ analyses t (trace s) = 1
      end
  | None =>
      match capability t with
      | ResolvedProvider _ _ =>
          resolutions t (trace s) = 0 ∧ analyses t (trace s) = 0
      | BasicProvider _ =>
          analyses t (trace s) = 0 ∧
          (0 < resolutions t (trace s) → ∃ e, Resolve (documentOf t) = inl e)
      | NoProvider =>
          analyses t (trace s) = resolutions t (trace s) ∧
          (0 < resolutions t (trace s) → ∃ e, Resolve (documentOf t) = inl e)
      end
  end.
End resolver.
End Resolver.

(** ** A reference library for ASCII text

    The library routines, computed for ASCII strings, to evaluate the
    generator on concrete programs: identifiers and tags of ASCII
    letters, tag values without escape sequences. No formatter is
    modelled: format_Source reports every source as unformatted, the case
    in which generate writes the buffer as the template produced it. *)
Module AsciiLib.
Definition backslash : ascii := "092"%char.

Definition hex_digit (n : nat) : ascii :=
  default "0"%char (String.list_ascii_of_string "0123456789abcdef" !! n).

(** strconv.Quote on one byte. *)
Definition quote_byte (c : ascii) : string :=
  let n := nat_of_ascii c in
  let esc (e : ascii) := String backslash (String e EmptyString) in
  if decide (n = 34) then esc "034"%char
  else if decide (n = 92) then esc backslash
  else if decide (n = 7) then esc "a"%char
  else if decide (n = 8) then esc "b"%char
  else if decide (n = 12) then esc "f"%char
  else if decide (n = 10) then esc "n"%char
  else if decide (n = 13) then esc "r"%char
  else if decide (n = 9) then esc "t"%char
  else if decide (n = 11) then esc "v"%char
  else if decide (n < 32 ∨ 127 ≤ n) then
    String backslash (String "x"%char
      (String (hex_digit (n / 16)) (String (hex_digit (n mod 16)) EmptyString)))
  else String c EmptyString.

Fixpoint quote_bytes (s : string) : string :=
  match s with
  | EmptyString => EmptyString
  | String c rest => quote_byte c +:+ quote_bytes rest
  end.

Definition quote (s : string) : string := dq +:+ quote_bytes s +:+ dq.

Definition lower_byte (c : ascii) : ascii :=
  let n := nat_of_ascii c in
  if decide (65 ≤ n ∧ n ≤ 90) then ascii_of_nat (n + 32) else c.

Fixpoint ToLower (s : string) : string :=
  match s with
  | EmptyString => EmptyString
  | String c rest => String (lower_byte c) (ToLower rest)
  end.

Fixpoint TrimLeft (s : string) : string :=
  match s with
  | String c rest => if Ascii.is_space c then TrimLeft rest else s
  | EmptyString => EmptyString
  end.

Definition TrimSpace (s : string) : string :=
  String.rev (TrimLeft (String.rev (TrimLeft s))).

(** The scans of reflect.StructTag.Lookup. *)
Fixpoint skip_spaces (s : string) : string :=
  match s with
  | String " "%char rest => skip_spaces rest
  | _ => s
  end.

Definition name_byte (c : ascii) : bool :=
  let n := nat_of_ascii c in
  bool_decide (32 < n ∧ n ≠ 58 ∧ n ≠ 34 ∧ n ≠ 127).

Fixpoint scan_name (s : string) : string * string :=
  match s with
  | String c rest =>
      if name_byte c then let '(name, s') := scan_name rest in (String c name, s')
      else (EmptyString, s)
  | EmptyString => (EmptyString, EmptyString)
  end.

(** From just after the opening quote: the text up to the closing
    quote, and what follows it. *)
Fixpoint scan_quoted (s : string) : option (string * string) :=
  match s with
  | EmptyString => None
  | String c rest =>
      if Ascii.eqb c "034"%char then Some (EmptyString, rest)
      else if Ascii.eqb c backslash then
        match rest with
        | EmptyString => None
        | String c2 rest2 =>
            '(v, s') ← scan_quoted rest2; Some (String c (String c2 v), s')
        end
      else '(v, s') ← scan_quoted rest; Some (String c v, s')
  end.

Definition has_byte (c : ascii) (s : string) : bool :=
  existsb (Ascii.eqb c) (String.list_ascii_of_string s).

Fixpoint Lookup (fuel : nat) (tag key : string) : string :=
  match fuel with
  | 0 => EmptyString
  | S fuel =>
      let '(name, rest) := scan_name (skip_spaces tag) in
      if decide (name = EmptyString) then EmptyString
      else
        match rest with
        | String ":"%char (String "034"%char rest) =>
            match scan_quoted rest with
            | None => EmptyString
            | Some (value, rest) =>
                if decide (name = key) then
                  if has_byte backslash value || has_byte "010"%char value
                  then EmptyString else value
                else Lookup fuel rest key
            end
        | _ => EmptyString
        end
  end.

Definition StructTag_Get (tag key : string) : string :=
  Lookup (String.length tag) tag key.

Definition IsExported (name : string) : bool :=
  match name with
  | String c _ => bool_decide (65 ≤ nat_of_ascii c ∧ nat_of_ascii c ≤ 90)
  | EmptyString => false
  end.

Definition filepath_Join (dir name : string) : string :=
  if decide (dir = EmptyString ∨ dir = ".") then name else dir +:+ "/" +:+ name.

Definition lib : GoLib :=
  Build_GoLib quote ToLower TrimSpace StructTag_Get IsExported
    (λ _, None) filepath_Join.
End AsciiLib.

(** ** Notions used in the statements *)
Section notions.
Context `{L : GoLib} (U : types.Universe).

(** The first token of the json tag of a field: what precedes the first
    comma of its value, empty when the tag has no json key. *)
Definition jsonToken (tag : string) : string :=
  default EmptyString (head (Split (getTagValue tag "json") ","%char)).

(** A field is kept when it is exported and its json tag does not start
    with the omit token. *)
Definition kept (field : types.Var) (tag : string) : Prop :=
  IsExported (types.Var_Name field) = true ∧ jsonToken tag ≠ "-".

#[global] Instance kept_dec field tag : Decision (kept field tag).
Proof. unfold kept. apply _. Defined.

(** The name a kept field goes by on the wire. *)
Definition wireName (field : types.Var) (tag : string) : string :=
  if decide (jsonToken tag = EmptyString) then types.Var_Name field
  else jsonToken tag.

(** The fields of a struct with their tags, counting from index [i]. *)
Definition taggedFields (i : nat) (fields : list types.Var) (tags : list string)
    : list (types.Var * string) :=
  imap (λ j field, (field, types.Tag tags (i + j))) fields.

(** The jsonschema tag has no enum directive. *)
Definition noExplicitEnum (tag : string) : Prop :=
  Forall (λ part, HasPrefix (TrimSpace part) "enum=" = false)
         (Split (getTagValue tag "jsonschema") ","%char).

(** The string values of the constants of a scope whose type is the
    named type, one per constant. *)
Definition matchingConstValues (scope : gmap string types.Object)
    (named : types.TypeName) : list string :=
  omap (λ kv, enumValueOf named (Some kv.2)) (map_to_list scope).

(** [Unwraps n t t']: following [n] pointers from [t] leads to [t']. *)
Inductive Unwraps : nat → types.Type_ → types.Type_ → Prop :=
| Unwraps_here t : Unwraps 0 t t
| Unwraps_elem n t elem t' :
    types.Underlying U t = types.Pointer elem →
    Unwraps n elem t' →
    Unwraps (S n) t t'.
End notions.

(** The integer kinds of go/types (the kinds with the IsInteger flag) that
    a variable can have. *)
Definition isTypedInteger (kind : types.BasicKind) : bool :=
  match kind with
  | types.Int | types.Int8 | types.Int16 | types.Int32 | types.Int64
  | types.Uint | types.Uint8 | types.Uint16 | types.Uint32 | types.Uint64
  | types.Uintptr => true
  | _ => false
  end.

(** The bytes an outcome writes, if it writes. *)
Definition written_content (o : outcome Written) : outcome string :=
  match o with
  | Ok w => Ok (content w)
  | Fail err => Fail err
  | Panic => Panic
  | OutOfFuel => OutOfFuel
  end.

(** ** A small program to evaluate the generator on

    Package [demo] declares

      type Priority string   with constants high, medium, low
      type Level string      with two constants, both of value x
      type Mode string       with one constant, auto
      type Self *Self
      type Search struct     with the fields below
*)
Module Demo.
Definition quoted (s : string) : string := dq +:+ s +:+ dq.

Definition Priority : types.TypeName := types.Build_TypeName "demo" "Priority".
Definition Level : types.TypeName := types.Build_TypeName "demo" "Level".
Definition Mode : types.TypeName := types.Build_TypeName "demo" "Mode".
Definition Self : types.TypeName := types.Build_TypeName "demo" "Self".
Definition Search : types.TypeName := types.Build_TypeName "demo" "Search".

Definition searchFields : list types.Var := [
  types.NewField "Query" (types.Basic types.String);
  types.NewField "Limit" (types.Pointer (types.Basic types.Int));
  types.NewField "hidden" (types.Basic types.Int);
  types.NewField "Secret" (types.Basic types.String);
  types.NewField "Prio" (types.Named Priority);
  types.NewField "Handle" (types.Basic types.Uintptr)
].

Definition searchTags : list string := [
  "json:" +:+ quoted "query" +:+ " jsonschema:" +:+ quoted "required,description=Search query";
  "json:" +:+ quoted "limit,omitempty" +:+ " jsonschema:" +:+ quoted "default=10";
  "json:" +:+ quoted "hidden";
  "json:" +:+ quoted "-";
  "json:" +:+ quoted ",omitempty"
].

Definition scope : gmap string types.Object :=
  list_to_map [
    ("Priority", types.TypeNameObj (types.Named Priority));
    ("PriorityHigh", types.Const (types.Named Priority) (constant.String "high"));
    ("PriorityMedium", types.Const (types.Named Priority) (constant.String "medium"));
    ("PriorityLow", types.Const (types.Named Priority) (constant.String "low"));
    ("Level", types.TypeNameObj (types.Named Level));
    ("LevelA", types.Const (types.Named Level) (constant.String "x"));
    ("LevelB", types.Const (types.Named Level) (constant.String "x"));
    ("Mode", types.TypeNameObj (types.Named Mode));
    ("ModeAuto", types.Const (types.Named Mode) (constant.String "auto"));
    ("Version", types.Const (types.Basic types.String) (constant.String "v1"));
    ("Self", types.TypeNameObj (types.Named Self));
    ("Search", types.TypeNameObj (types.Named Search))
  ].

Definition U : types.Universe :=
  types.Build_Universe
    (λ obj,
       if decide (obj = Search) then types.Struct searchFields searchTags
       else if decide (obj = Self) then types.Pointer (types.Named Self)
       else types.Basic types.String)
    (λ path, if decide (path = "demo") then scope else ∅).

(** A field of type Level, and one of type Mode, without a tag. *)
Definition levelField : types.Var := types.NewField "Level" (types.Named Level).
Definition modeField : types.Var := types.NewField "Mode" (types.Named Mode).
Definition prioField : types.Var := types.NewField "Prio" (types.Named Priority).

(** Two descriptors, as the end-to-end example of the specification. *)
Definition query : FieldInfo.t :=
  FieldInfo.New "Query" "query" "string" "Search query" true false EmptyString [].
Definition limit : FieldInfo.t :=
  FieldInfo.New "Limit" "limit" "integer" EmptyString false false EmptyString [].
Definition searchInfo : TypeInfo.t := TypeInfo.New "Search" [query; limit].

Definition generator (typeMap : gmap string TypeInfo.t) : Generator.t :=
  Generator.New "." ["Search"] "demo" "demo" typeMap.

(** A resolution routine for the generated schemas that rejects the
    schemas without properties. *)
Definition Resolve (s : SchemaLit.t) : option nat * option string :=
  match SchemaLit.Properties s with
  | [] => (None, Some "no properties")
  | ps => (Some (length ps), None)
  end.

Definition emptyInfo : TypeInfo.t := TypeInfo.New "Empty" [].

(** A program for the resolver: four types, named by strings; the
    resolution routine rejects the document [bad]. *)
Definition capability (t : string) : @Resolver.Capability string string :=
  if decide (t = "Pre") then Resolver.ResolvedProvider "docPre" "resolvedPre"
  else if decide (t = "Basic") then Resolver.BasicProvider "docBasic"
  else if decide (t = "Bad") then Resolver.BasicProvider "bad"
  else Resolver.NoProvider.

Definition analyse (t : string) : string := "reflected:" +:+ t.

Definition resolution (doc : string) : string + string :=
  if decide (doc = "bad") then inl "rejected" else inr ("resolved:" +:+ doc).
End Demo.

(** ** cmd/mcpgen: the jsonschema tag, findASTType and main *)

(** go/token: the keywords a general declaration starts with. *)
Module token.
Inductive Token := ILLEGAL | IMPORT | CONST | TYPE | VAR.

#[global] Instance Token_eq_dec : EqDecision Token.
Proof. solve_decision. Defined.
End token.

(** go/ast: the declarations of a file. Of a type spec the generator
    reads the name; [NamePos], the position of the name, tells two specs
    of the same name apart. *)
Module ast.
Record TypeSpec := NewTypeSpec {
  Name : string;
  NamePos : N;
}.

Inductive Spec :=
| ImportSpec (path : string)
| ValueSpec (names : list string)
| TypeSpecOf (typeSpec : TypeSpec).

Inductive Decl :=
| BadDecl
| GenDecl (Tok : token.Token) (Specs : list Spec)
| FuncDecl (name : string).

Record File := NewFile {
  Decls : list Decl;
}.
End ast.

(** The three loops of findASTType, from the innermost: the specs of a
    declaration, the declarations of a file, the files of the package. *)
Fixpoint findInSpecs (specs : list ast.Spec) (name : string) : option ast.TypeSpec :=
  match specs with
  | [] => None
  | spec :: rest =>
      match spec with
      | ast.TypeSpecOf typeSpec =>
          if decide (ast.Name typeSpec = name) then Some typeSpec
          else findInSpecs rest name
      | _ => findInSpecs rest name
      end
  end.

Fixpoint findInDecls (decls : list ast.Decl) (name : string) : option ast.TypeSpec :=
  match decls with
  | [] => None
  | decl :: rest =>
      match decl with
      | ast.GenDecl tok specs =>
          if decide (tok = token.TYPE) then
            match findInSpecs specs name with
            | Some typeSpec => Some typeSpec
            | None => findInDecls rest name
            end
          else findInDecls rest name
      | _ => findInDecls rest name
      end
  end.

(** findASTType finds the AST node for a type declaration, in the files
    g.pkg.Syntax; [None] is nil. *)
Fixpoint findASTType (syntax : list ast.File) (name : string) : option ast.TypeSpec :=
  match syntax with
  | [] => None
  | file :: rest =>
      match findInDecls (ast.Decls file) name with
      | Some typeSpec => Some typeSpec
      | None => findASTType rest name
      end
  end.

(** How main ends: log.Fatal for a missing -type flag, or the outcome of
    Run, whose error main passes to log.Fatal. *)
Inductive Exit :=
| NoTypesSpecified
| Ran (o : outcome Written).

Section main.
Context `{L : GoLib} (U : types.Universe).

(** The -output flag, and packages.Load on a directory. *)
Variable outputFile : string.
Variable Load : string → option (list Package).

(** The list of types of main: the -type flag split at the commas, each
    name trimmed. *)
Definition typeList (typeNames : string) : list string :=
  TrimSpace <$> Split typeNames ","%char.

(** main, given the -type flag and the arguments left after the flags. *)
Definition main (fuel : nat) (typeNames : string) (args : list string) : Exit :=
  if decide (typeNames = EmptyString) then NoTypesSpecified
  else
    let types := typeList typeNames in
    let dir := match args with arg :: _ => arg | [] => "." end in
    Ran (Run U outputFile fuel dir types (Load dir)).
End main.

(** ** More notions used in the statements *)
Section more_notions.
Context `{L : GoLib}.

(** The directives of the jsonschema tag of a field: the parts of its
    value between commas, trimmed; none when the tag has no jsonschema
    key. *)
Definition directives (tag : string) : list string :=
  let schemaTag := getTagValue tag "jsonschema" in
  if decide (schemaTag = EmptyString) then []
  else TrimSpace <$> Split schemaTag ","%char.

(** The value of the last directive that starts with [pre]. *)
Definition lastDirective (pre : string) (ds : list string) : option string :=
  (λ d, TrimPrefix d pre) <$> last (filter (λ d, HasPrefix d pre = true) ds).
End more_notions.

(** The byte [c] occurs in [s]. *)
Fixpoint occurs (c : ascii) (s : string) : bool :=
  match s with
  | EmptyString => false
  | String c' rest => Ascii.eqb c' c || occurs c rest
  end.

(** strings.Join with a separator of one byte. *)
Definition Join (parts : list string) (sep : ascii) : string :=
  String.concat (String sep EmptyString) parts.

(** The six type names of JSON schema that the generator writes. *)
Definition schemaTypes : list string :=
  ["boolean"; "integer"; "number"; "string"; "array"; "object"].

(** The shapes goTypeToJSONSchemaType has no case for. *)
Definition unrecognized (t : types.Type_) : Prop :=
  match t with
  | types.Array _ _ | types.Chan _ | types.Signature | types.Interface => True
  | types.Basic kind =>
      match kind with
      | types.Invalid | types.Uintptr | types.Complex64 | types.Complex128
      | types.UnsafePointer
      | types.UntypedBool | types.UntypedInt | types.UntypedRune
      | types.UntypedFloat | types.UntypedComplex | types.UntypedString
      | types.UntypedNil => True
      | _ => False
      end
  | _ => False
  end.

(** More of the demo: a file of the package, and a second program in
    which a struct has pointer and array fields. *)
Module Demo2.
Definition searchSpec : ast.TypeSpec := ast.NewTypeSpec "Search" 120.
Definition prioritySpec : ast.TypeSpec := ast.NewTypeSpec "Priority" 40.

Definition file : ast.File :=
  ast.NewFile [
    ast.GenDecl token.IMPORT [ast.ImportSpec "fmt"];
    ast.GenDecl token.TYPE [ast.TypeSpecOf prioritySpec];
    ast.GenDecl token.CONST [ast.ValueSpec ["PriorityHigh"; "PriorityMedium"; "PriorityLow"]];
    ast.FuncDecl "Search";
    ast.GenDecl token.TYPE [ast.TypeSpecOf searchSpec]
  ].

(** A pointer to a pointer to Priority, and an array of three ints. *)
Definition deepPriority : types.Type_ :=
  types.Pointer (types.Pointer (types.Named Demo.Priority)).
Definition triple : types.Type_ := types.Array 3 (types.Basic types.Int).

(** A tag with every directive, some of them twice. *)
Definition fullTag : string :=
  "json:" +:+ Demo.quoted "mode" +:+ " jsonschema:" +:+
  Demo.quoted "description=first, required ,default=a,enum=a|b,description=Mode of search".

(** A tag whose enum directive has no value. *)
Definition emptyEnumTag : string := "jsonschema:" +:+ Demo.quoted "enum=".

(** A tag whose description and last enum value hold a comma. *)
Definition commaTag : string :=
  "jsonschema:" +:+ Demo.quoted "description=Hello, world,enum=a|b, c".


Definition Load (dir : string) : option (list Package) :=
  if decide (dir = ".") then Some [NewPackage "demo" "demo" 0] else None.

(** A struct whose two fields, both required, have the same name in
    JSON, and the descriptors of its fields. *)
Definition pairFields : list types.Var := [
  types.NewField "A" (types.Basic types.String);
  types.NewField "B" (types.Basic types.Int)
].
Definition pairTags : list string := [
  "json:" +:+ Demo.quoted "x" +:+ " jsonschema:" +:+ Demo.quoted "required";
  "json:" +:+ Demo.quoted "x" +:+ " jsonschema:" +:+ Demo.quoted "required"
].
Definition pairInfos : list FieldInfo.t := [
  FieldInfo.New "A" "x" "string" EmptyString true false EmptyString [];
  FieldInfo.New "B" "x" "integer" EmptyString true false EmptyString []
].
End Demo2.

(** * Properties *)

(** ** Strings *)

Lemma append_nil_r (s : string) : s +:+ EmptyString = s.
Proof. induction s as [|c s IH]; [done|]. unfold String.app in *; simpl. by rewrite IH. Qed.

Lemma append_assoc (s1 s2 s3 : string) : (s1 +:+ s2) +:+ s3 = s1 +:+ s2 +:+ s3.
Proof.
  induction s1 as [|c s1 IH]; [done|].
  unfold String.app in *; simpl. by rewrite IH.
Qed.

Lemma concat_str_cons (s : string) (l : list string) :
  concat_str (s :: l) = s +:+ concat_str l.
Proof. done. Qed.

Lemma concat_str_app (l1 l2 : list string) :
  concat_str (l1 ++ l2) = concat_str l1 +:+ concat_str l2.
Proof.
  induction l1 as [|s l1 IH]; [done|].
  rewrite <- app_comm_cons, !concat_str_cons, IH. by rewrite append_assoc.
Qed.

Lemma infix_of_refl (s : string) : infix_of s s.
Proof. exists EmptyString, EmptyString. by rewrite append_nil_r. Qed.

Lemma infix_of_app_l (s t u : string) : infix_of s t → infix_of s (u +:+ t).
Proof.
  intros (pre & post & ->). exists (u +:+ pre), post. by rewrite append_assoc.
Qed.

Lemma infix_of_app_r (s t u : string) : infix_of s t → infix_of s (t +:+ u).
Proof.
  intros (pre & post & ->). exists pre, (post +:+ u). by rewrite !append_assoc.
Qed.

Lemma infix_of_trans (s t u : string) : infix_of s t → infix_of t u → infix_of s u.
Proof.
  intros Hst (pre & post & ->). by apply infix_of_app_l, infix_of_app_r.
Qed.

Lemma infix_of_concat_str (s t : string) (l : list string) :
  t ∈ l → infix_of s t → infix_of s (concat_str l).
Proof.
  intros Hin Hs. induction l as [|u l IH]; [by apply elem_of_nil in Hin|].
  rewrite concat_str_cons. apply elem_of_cons in Hin as [->|Hin].
  - by apply infix_of_app_r.
  - by apply infix_of_app_l, IH.
Qed.

(** ** goTypeToJSONSchemaType *)
Section goTypeToJSONSchemaType_facts.
Context (U : types.Universe).

(** More fuel does not change an answer. *)
Lemma goTypeToJSONSchemaType_mono (fuel fuel' : nat) (t : types.Type_) (r : string) :
  goTypeToJSONSchemaType U fuel t = Some r →
  fuel ≤ fuel' →
  goTypeToJSONSchemaType U fuel' t = Some r.
Proof.
  revert fuel' t. induction fuel as [|fuel IH]; intros fuel' t; [done|].
  destruct fuel' as [|fuel']; [lia|]. simpl.
  destruct (types.Underlying U t); try done.
  intros Hr Hle. apply IH; [done|lia].
Qed.

(** A pointer costs one call. *)
Lemma goTypeToJSONSchemaType_pointer (fuel : nat) (t elem : types.Type_) :
  types.Underlying U t = types.Pointer elem →
  goTypeToJSONSchemaType U (S fuel) t = goTypeToJSONSchemaType U fuel elem.
Proof. intros Hu. simpl. by rewrite Hu. Qed.

(** Pointers are unwrapped to any depth: [n] pointers cost [n] calls
    and give the type of what they lead to. *)
Lemma goTypeToJSONSchemaType_unwraps (n fuel : nat) (t t' : types.Type_) :
  Unwraps U n t t' →
  goTypeToJSONSchemaType U (n + fuel) t = goTypeToJSONSchemaType U fuel t'.
Proof.
  induction 1 as [|n t elem t' Hu _ IH]; [done|].
  replace (S n + fuel) with (S (n + fuel)) by lia.
  by rewrite (goTypeToJSONSchemaType_pointer _ _ _ Hu).
Qed.

(** The schema type of each shape the function names, and of the rest. *)
Lemma goTypeToJSONSchemaType_shapes (fuel : nat) (t : types.Type_) :
  match types.Underlying U t with
  | types.Basic types.Bool =>
      goTypeToJSONSchemaType U (S fuel) t = Some "boolean"
  | types.Basic (types.Int | types.Int8 | types.Int16 | types.Int32 | types.Int64
                | types.Uint | types.Uint8 | types.Uint16 | types.Uint32
                | types.Uint64) =>
      goTypeToJSONSchemaType U (S fuel) t = Some "integer"
  | types.Basic (types.Float32 | types.Float64) =>
      goTypeToJSONSchemaType U (S fuel) t = Some "number"
  | types.Basic types.String =>
      goTypeToJSONSchemaType U (S fuel) t = Some "string"
  | types.Slice _ => goTypeToJSONSchemaType U (S fuel) t = Some "array"
  | types.Map _ _ | types.Struct _ _ =>
      goTypeToJSONSchemaType U (S fuel) t = Some "object"
  | types.Pointer elem =>
      goTypeToJSONSchemaType U (S fuel) t = goTypeToJSONSchemaType U fuel elem
  | _ => goTypeToJSONSchemaType U (S fuel) t = Some "object"
  end.
Proof. simpl. destruct (types.Underlying U t) as [[]| | | | | | | | |]; done. Qed.

(** A chain of pointers that never ends -- the type Self of the demo
    program -- gets no answer, whatever the fuel. *)
Lemma goTypeToJSONSchemaType_cycle (fuel : nat) (t : types.Type_) :
  types.Underlying U t = types.Pointer t →
  goTypeToJSONSchemaType U fuel t = None.
Proof.
  intros Hu. induction fuel as [|fuel IH]; [done|].
  by rewrite (goTypeToJSONSchemaType_pointer _ _ _ Hu).
Qed.
End goTypeToJSONSchemaType_facts.

(** C6 -- the schema type of a field of kind uintptr. uintptr is an
    integer kind of Go, and the case of goTypeToJSONSchemaType that lists
    the integer kinds leaves it out: the function answers object for it,
    for every fuel and in every program, and so does extractFieldInfo for
    a field Handle of type uintptr. *)
Theorem goTypeToJSONSchemaType_uintptr :
  isTypedInteger types.Uintptr = true ∧
  (∀ (U : types.Universe) (fuel : nat),
     goTypeToJSONSchemaType U (S fuel) (types.Basic types.Uintptr) = Some "object") ∧
  extractFieldInfo (L := AsciiLib.lib) Demo.U 1
    (types.NewField "Handle" (types.Basic types.Uintptr)) EmptyString
  = Some (Some (FieldInfo.New "Handle" "Handle" "object" EmptyString false false
                  EmptyString [])).
Proof. split; [done|]. split; [done|]. by vm_compute. Qed.

(** ** extractFieldInfo: visibility and wire names *)
Section extractFieldInfo_facts.
Context `{L : GoLib} (U : types.Universe).

(** The json tag, by its first token. *)
Lemma applyJSONTag_token (tag : string) (info : FieldInfo.t) :
  applyJSONTag tag info =
    if decide (jsonToken tag = "-") then None
    else if decide (jsonToken tag = EmptyString) then Some info
    else Some (FieldInfo.set_JSONName (jsonToken tag) info).
Proof.
  unfold applyJSONTag, jsonToken.
  destruct (decide (getTagValue tag "json" = EmptyString)) as [->|Hne]; [done|].
  done.
Qed.

(** The jsonschema tag and the enum detection leave the names alone. *)
Lemma applyDirective_names (info : FieldInfo.t) (part : string) :
  FieldInfo.Name (applyDirective info part) = FieldInfo.Name info ∧
  FieldInfo.JSONName (applyDirective info part) = FieldInfo.JSONName info ∧
  FieldInfo.Type_ (applyDirective info part) = FieldInfo.Type_ info.
Proof.
  unfold applyDirective.
  repeat (case_decide || case_match); done.
Qed.

Lemma applySchemaTag_names (tag : string) (info : FieldInfo.t) :
  FieldInfo.Name (applySchemaTag tag info) = FieldInfo.Name info ∧
  FieldInfo.JSONName (applySchemaTag tag info) = FieldInfo.JSONName info ∧
  FieldInfo.Type_ (applySchemaTag tag info) = FieldInfo.Type_ info.
Proof.
  unfold applySchemaTag. case_decide; [done|].
  generalize (Split (getTagValue tag "jsonschema") ","%char) as parts.
  intros parts. revert info.
  induction parts as [|part parts IH]; intros info; [done|]. simpl.
  destruct (IH (applyDirective info part)) as (-> & -> & ->).
  apply applyDirective_names.
Qed.

Lemma detectEnum_names (fieldType : types.Type_) (info : FieldInfo.t) :
  FieldInfo.Name (detectEnum U fieldType info) = FieldInfo.Name info ∧
  FieldInfo.JSONName (detectEnum U fieldType info) = FieldInfo.JSONName info ∧
  FieldInfo.Type_ (detectEnum U fieldType info) = FieldInfo.Type_ info.
Proof.
  unfold detectEnum. case_decide; [|done].
  destruct fieldType; try done. case_decide; done.
Qed.

(** extractFieldInfo in one equation: nothing for a field that is not
    kept; for a kept field the descriptor built from its wire name, its
    jsonschema tag, its schema type and the enum detection. *)
Lemma extractFieldInfo_eq (fuel : nat) (field : types.Var) (tag : string) :
  extractFieldInfo U fuel field tag =
    if decide (kept field tag) then
      ty ← goTypeToJSONSchemaType U fuel (types.Var_Type field);
      Some (Some (detectEnum U (types.Var_Type field)
        (FieldInfo.set_Type ty (applySchemaTag tag
           (FieldInfo.set_JSONName (wireName field tag)
              (FieldInfo.zero (types.Var_Name field)))))))
    else Some None.
Proof.
  destruct (decide (kept field tag)) as [[Hex Hk]|Hnk]; unfold extractFieldInfo.
  - rewrite Hex. simpl. rewrite applyJSONTag_token, (decide_False _ _ Hk).
    unfold wireName.
    destruct (decide (jsonToken tag = EmptyString));
      by destruct (goTypeToJSONSchemaType U fuel (types.Var_Type field)).
  - destruct (IsExported (types.Var_Name field)) eqn:Hex; simpl; [|done].
    rewrite applyJSONTag_token.
    destruct (decide (jsonToken tag = "-")); [done|]. by destruct Hnk.
Qed.

(** A field that is not kept gets no descriptor. *)
Lemma extractFieldInfo_not_kept (fuel : nat) (field : types.Var) (tag : string) :
  ¬ kept field tag → extractFieldInfo U fuel field tag = Some None.
Proof. intros Hk. by rewrite extractFieldInfo_eq, decide_False. Qed.

(** A kept field gets one as soon as its type has a schema type. *)
Lemma extractFieldInfo_kept (fuel : nat) (field : types.Var) (tag ty : string) :
  kept field tag →
  goTypeToJSONSchemaType U fuel (types.Var_Type field) = Some ty →
  ∃ info,
    extractFieldInfo U fuel field tag = Some (Some info) ∧
    FieldInfo.Name info = types.Var_Name field ∧
    FieldInfo.JSONName info = wireName field tag ∧
    FieldInfo.Type_ info = ty.
Proof.
  intros Hk Hty. rewrite extractFieldInfo_eq, decide_True, Hty by done. simpl.
  eexists. split; [done|].
  match goal with
  | |- context [detectEnum U ?t ?i] =>
      destruct (detectEnum_names t i) as (-> & -> & ->)
  end. simpl.
  match goal with
  | |- context [applySchemaTag ?t ?i] =>
      destruct (applySchemaTag_names t i) as (-> & -> & _)
  end. done.
Qed.

(** When there is no answer, it is the type of a kept field that has
    none. *)
Lemma extractFieldInfo_None (fuel : nat) (field : types.Var) (tag : string) :
  extractFieldInfo U fuel field tag = None ↔
  kept field tag ∧ goTypeToJSONSchemaType U fuel (types.Var_Type field) = None.
Proof.
  rewrite extractFieldInfo_eq.
  destruct (decide (kept field tag)) as [Hk|Hk]; [|by split; [|intros []]].
  destruct (goTypeToJSONSchemaType U fuel (types.Var_Type field)); simpl.
  - by split; [|intros []].
  - done.
Qed.

(** A descriptor comes from a kept field, and bears its names. *)
Lemma extractFieldInfo_Some (fuel : nat) (field : types.Var) (tag : string)
    (info : FieldInfo.t) :
  extractFieldInfo U fuel field tag = Some (Some info) →
  kept field tag ∧
  FieldInfo.Name info = types.Var_Name field ∧
  FieldInfo.JSONName info = wireName field tag ∧
  goTypeToJSONSchemaType U fuel (types.Var_Type field) = Some (FieldInfo.Type_ info).
Proof.
  intros Hinfo. destruct (decide (kept field tag)) as [Hk|Hk].
  - split; [done|].
    destruct (goTypeToJSONSchemaType U fuel (types.Var_Type field)) as [ty|] eqn:Hty.
    + destruct (extractFieldInfo_kept fuel field tag ty Hk Hty)
        as (info' & Hi & Hn & Hj & Ht).
      rewrite Hi in Hinfo. by simplify_eq.
    + assert (extractFieldInfo U fuel field tag = None) as Hnone
        by by apply extractFieldInfo_None.
      congruence.
  - rewrite (extractFieldInfo_not_kept fuel field tag Hk) in Hinfo. done.
Qed.

End extractFieldInfo_facts.

Section extractFields_facts.
Context `{L : GoLib} (U : types.Universe).

(** The list that findType builds: the descriptors of the kept fields,
    in the order of the struct. *)
Lemma extractFields_names (fuel i : nat) (fields : list types.Var)
    (tags : list string) (infos : list FieldInfo.t) :
  extractFields U fuel i fields tags = Some infos →
  FieldInfo.Name <$> infos =
    (λ ft, types.Var_Name ft.1) <$>
      filter (λ ft, kept ft.1 ft.2) (taggedFields i fields tags).
Proof.
  revert i infos. induction fields as [|field rest IH]; intros i infos; simpl.
  - by intros [= <-].
  - destruct (extractFieldInfo U fuel field (types.Tag tags i)) as [fieldInfo|] eqn:Hf;
      [|done].
    destruct (extractFields U fuel (S i) rest tags) as [infos'|] eqn:Hrest; [|done].
    intros [= <-]. unfold taggedFields. simpl.
    replace (i + 0) with i by lia.
    assert (imap ((λ j f, (f, types.Tag tags (i + j))) ∘ S) rest
            = taggedFields (S i) rest tags) as ->.
    { unfold taggedFields. apply imap_ext. intros j f _. simpl. do 2 f_equal. lia. }
    specialize (IH (S i) infos' Hrest).
    destruct fieldInfo as [info|].
    + apply extractFieldInfo_Some in Hf as (Hk & Hn & _).
      rewrite filter_cons_True by done. rewrite !fmap_cons. simpl. by rewrite Hn, IH.
    + rewrite filter_cons_False; [done|]. simpl. intros Hk.
      destruct (goTypeToJSONSchemaType U fuel (types.Var_Type field)) as [ty|] eqn:Hty.
      * destruct (extractFieldInfo_kept U fuel field _ ty Hk Hty) as (? & ? & _).
        congruence.
      * assert (extractFieldInfo U fuel field (types.Tag tags i) = None)
          by by apply extractFieldInfo_None.
        congruence.
Qed.

(** The loop has an answer when every kept field has a schema type. *)
Lemma extractFields_is_Some (fuel i : nat) (fields : list types.Var)
    (tags : list string) :
  Forall (λ field, is_Some (goTypeToJSONSchemaType U fuel (types.Var_Type field)))
         fields →
  is_Some (extractFields U fuel i fields tags).
Proof.
  intros Hall. revert i. induction Hall as [|field rest [ty Hty] _ IH]; intros i; simpl.
  - done.
  - destruct (decide (kept field (types.Tag tags i))) as [Hk|Hk].
    + destruct (extractFieldInfo_kept U fuel field _ ty Hk Hty) as (info & -> & _).
      by destruct (IH (S i)) as [infos ->].
    + rewrite (extractFieldInfo_not_kept U fuel field _ Hk).
      by destruct (IH (S i)) as [infos ->].
Qed.
End extractFields_facts.

(** C8 -- the descriptor of a struct field. A field that is not exported
    gets no descriptor. A field whose json tag starts with the omit token
    gets none either, so that the list findType extracts holds, in order,
    the descriptors of the exported fields that are not omitted and of no
    other field. The wire name of a descriptor is the first token of the
    json tag when there is one, and the declared name of the field
    otherwise. extractFieldInfo answers for every kept field whose type
    has a schema type. *)
Theorem extractFieldInfo_visible_omit_wire `{L : GoLib} (U : types.Universe)
    (fuel : nat) (field : types.Var) (tag : string) :
  (IsExported (types.Var_Name field) = false →
   extractFieldInfo U fuel field tag = Some None) ∧
  (jsonToken tag = "-" → extractFieldInfo U fuel field tag = Some None) ∧
  (∀ info, extractFieldInfo U fuel field tag = Some (Some info) →
     IsExported (types.Var_Name field) = true ∧
     jsonToken tag ≠ "-" ∧
     FieldInfo.Name info = types.Var_Name field ∧
     FieldInfo.JSONName info =
       if decide (jsonToken tag = EmptyString) then types.Var_Name field
       else jsonToken tag) ∧
  (∀ ty, kept field tag →
     goTypeToJSONSchemaType U fuel (types.Var_Type field) = Some ty →
     ∃ info, extractFieldInfo U fuel field tag = Some (Some info) ∧
             FieldInfo.JSONName info = wireName field tag) ∧
  (∀ i fields tags infos,
     extractFields U fuel i fields tags = Some infos →
     FieldInfo.Name <$> infos =
       (λ ft, types.Var_Name ft.1) <$>
         filter (λ ft, kept ft.1 ft.2) (taggedFields i fields tags)).
Proof.
  split; [|split; [|split; [|split]]].
  - intros Hex. apply extractFieldInfo_not_kept. intros [Hex' _]. congruence.
  - intros Hk. apply extractFieldInfo_not_kept. by intros [_ Hk'].
  - intros info Hinfo.
    apply extractFieldInfo_Some in Hinfo as ([Hex Hk] & Hn & Hj & _). done.
  - intros ty Hk Hty.
    destruct (extractFieldInfo_kept U fuel field tag ty Hk Hty) as (info & ? & _ & ? & _).
    by exists info.
  - intros i fields tags infos. apply extractFields_names.
Qed.

(** The theorem on the struct Search of the demo program: the field
    hidden and the field Secret, tagged with the omit token, get no
    descriptor; Query goes by the name query; the extracted list is
    Query, Limit, Prio, Handle. *)
Lemma extractFieldInfo_visible_omit_wire_witness :
  extractFieldInfo (L := AsciiLib.lib) Demo.U 2
    (types.NewField "hidden" (types.Basic types.Int))
    ("json:" +:+ Demo.quoted "hidden") = Some None ∧
  extractFieldInfo (L := AsciiLib.lib) Demo.U 2
    (types.NewField "Secret" (types.Basic types.String))
    ("json:" +:+ Demo.quoted "-") = Some None ∧
  (∃ info,
     extractFieldInfo (L := AsciiLib.lib) Demo.U 2
       (types.NewField "Query" (types.Basic types.String))
       ("json:" +:+ Demo.quoted "query") = Some (Some info) ∧
     FieldInfo.JSONName info = "query") ∧
  (∃ infos,
     extractFields (L := AsciiLib.lib) Demo.U 2 0 Demo.searchFields Demo.searchTags
       = Some infos ∧
     FieldInfo.Name <$> infos = ["Query"; "Limit"; "Prio"; "Handle"]).
Proof.
  split; [|split; [|split]].
  - destruct (extractFieldInfo_visible_omit_wire (L := AsciiLib.lib) Demo.U 2
                (types.NewField "hidden" (types.Basic types.Int))
                ("json:" +:+ Demo.quoted "hidden")) as (Hhidden & _).
    apply Hhidden. reflexivity.
  - destruct (extractFieldInfo_visible_omit_wire (L := AsciiLib.lib) Demo.U 2
                (types.NewField "Secret" (types.Basic types.String))
                ("json:" +:+ Demo.quoted "-")) as (_ & Homit & _).
    apply Homit. by vm_compute.
  - destruct (extractFieldInfo_visible_omit_wire (L := AsciiLib.lib) Demo.U 2
                (types.NewField "Query" (types.Basic types.String))
                ("json:" +:+ Demo.quoted "query")) as (_ & _ & _ & Hkept & _).
    destruct (Hkept "string") as (info & Hinfo & Hwire).
    + split; [reflexivity|by vm_compute].
    + reflexivity.
    + exists info. split; [exact Hinfo|]. rewrite Hwire. by vm_compute.
  - destruct (extractFieldInfo_visible_omit_wire (L := AsciiLib.lib) Demo.U 2
                (types.NewField "Query" (types.Basic types.String)) EmptyString)
      as (_ & _ & _ & _ & Hlist).
    destruct (extractFields (L := AsciiLib.lib) Demo.U 2 0 Demo.searchFields
                Demo.searchTags) as [infos|] eqn:Hinfos;
      [|by vm_compute in Hinfos].
    exists infos. split; [reflexivity|].
    rewrite (Hlist 0 Demo.searchFields Demo.searchTags infos Hinfos).
    by vm_compute.
Defined.

(** ** findEnumValues and the enum of a field *)
Section enum_facts.
Context `{L : GoLib} (U : types.Universe).

(** sort.Strings sorts, and keeps every string with its multiplicity. *)
Lemma sort_Strings_Sorted (l : list string) : Sorted String.le (sort_Strings l).
Proof. apply (Sorted_merge_sort String.le). Qed.

Lemma sort_Strings_Permutation (l : list string) : sort_Strings l ≡ₚ l.
Proof. apply merge_sort_Permutation. Qed.

Lemma sort_Strings_length (l : list string) : length (sort_Strings l) = length l.
Proof. by rewrite sort_Strings_Permutation. Qed.

Lemma omap_cons {A B} (f : A → option B) (x : A) (l : list A) :
  omap f (x :: l) = match f x with Some y => y :: omap f l | None => omap f l end.
Proof. done. Qed.

(** The loop over the sorted names collects the values of the matching
    constants of the scope, each constant once. *)
Lemma constValues_matching (named : types.TypeName) :
  constValues U named ≡ₚ
    matchingConstValues (types.scopeOf U (types.Pkg named)) named.
Proof.
  unfold constValues, matchingConstValues, types.Names.
  set (scope := types.scopeOf U (types.Pkg named)).
  rewrite sort_Strings_Permutation.
  assert (∀ kvs : list (string * types.Object),
            Forall (λ kv, scope !! kv.1 = Some kv.2) kvs →
            omap (λ name, enumValueOf named (scope !! name)) kvs.*1
            = omap (λ kv, enumValueOf named (Some kv.2)) kvs) as Hkvs.
  { induction 1 as [|kv kvs Hkv _ IH]; [done|].
    by rewrite fmap_cons, !omap_cons, Hkv, IH. }
  rewrite Hkvs; [done|].
  apply Forall_forall. intros [k v] Hin. by apply elem_of_map_to_list in Hin.
Qed.

(** findEnumValues on a type whose underlying type is string. *)
Lemma findEnumValues_string (named : types.TypeName) :
  types.Underlying U (types.Named named) = types.Basic types.String →
  findEnumValues U named =
    if decide (2 ≤ length (constValues U named))
    then sort_Strings (constValues U named) else [].
Proof.
  intros Hu. unfold findEnumValues. rewrite Hu.
  by rewrite sort_Strings_length.
Qed.

(** A directive other than enum leaves the enum as it is. *)
Lemma applyDirective_Enum (info : FieldInfo.t) (part : string) :
  HasPrefix (TrimSpace part) "enum=" = false →
  FieldInfo.Enum (applyDirective info part) = FieldInfo.Enum info.
Proof.
  intros Hno. unfold applyDirective. rewrite Hno.
  destruct (decide (TrimSpace part = "required")); [done|].
  destruct (HasPrefix (TrimSpace part) "description="); [done|].
  by destruct (HasPrefix (TrimSpace part) "default=").
Qed.

Lemma applySchemaTag_Enum (tag : string) (info : FieldInfo.t) :
  noExplicitEnum tag →
  FieldInfo.Enum (applySchemaTag tag info) = FieldInfo.Enum info.
Proof.
  unfold noExplicitEnum, applySchemaTag. intros Hno.
  destruct (decide (getTagValue tag "jsonschema" = EmptyString)); [done|].
  revert info. induction Hno as [|part parts Hpart _ IH]; intros info; [done|].
  simpl. by rewrite IH, applyDirective_Enum.
Qed.

(** The enum detection on a descriptor of type string without enum, for
    a field of a named type: the enum is what findEnumValues returns. *)
Lemma detectEnum_named (named : types.TypeName) (info : FieldInfo.t) :
  FieldInfo.Enum info = [] →
  FieldInfo.Type_ info = "string" →
  FieldInfo.Enum (detectEnum U (types.Named named) info) = findEnumValues U named.
Proof.
  intros Hnil Hty. unfold detectEnum.
  rewrite decide_True by (by rewrite Hnil).
  destruct (decide (0 < length (findEnumValues U named))) as [|Hlen]; [done|].
  rewrite Hnil. destruct (findEnumValues U named); [done|simpl in Hlen; lia].
Qed.
End enum_facts.

(** C5, as the code has it -- the enum of a field of a named string type.
    For a kept field whose type is a named type with underlying type
    string and whose jsonschema tag has no enum directive,
    extractFieldInfo answers with any fuel and the enum of the descriptor
    is decided by the number of values collected, duplicates counted:
    with two or more, the collected values sorted; with fewer, no enum.
    The values collected are those of the constants of the package of the
    type whose type is that named type, one per constant; the enum is
    sorted byte-wise and, when attached, is a rearrangement of them. *)
Theorem extractFieldInfo_enum `{L : GoLib} (U : types.Universe) (fuel : nat)
    (field : types.Var) (tag : string) (named : types.TypeName) :
  types.Var_Type field = types.Named named →
  types.Underlying U (types.Named named) = types.Basic types.String →
  kept field tag →
  noExplicitEnum tag →
  ∃ info,
    extractFieldInfo U (S fuel) field tag = Some (Some info) ∧
    FieldInfo.Enum info =
      (if decide (2 ≤ length (constValues U named))
       then sort_Strings (constValues U named) else []) ∧
    constValues U named ≡ₚ
      matchingConstValues (types.scopeOf U (types.Pkg named)) named ∧
    Sorted String.le (FieldInfo.Enum info) ∧
    (2 ≤ length (constValues U named) →
     FieldInfo.Enum info ≡ₚ matchingConstValues (types.scopeOf U (types.Pkg named)) named).
Proof.
  intros Hty Hu Hk Hno.
  assert (goTypeToJSONSchemaType U (S fuel) (types.Var_Type field) = Some "string")
    as Hstr.
  { rewrite Hty. pose proof (goTypeToJSONSchemaType_shapes U fuel (types.Named named)) as Hs.
    by rewrite Hu in Hs. }
  rewrite extractFieldInfo_eq, decide_True, Hstr by done. simpl.
  eexists. split; [done|].
  rewrite Hty, detectEnum_named, findEnumValues_string by
    (done || (simpl; by rewrite applySchemaTag_Enum)).
  split; [done|]. split; [apply constValues_matching|]. split.
  - case_decide; [apply sort_Strings_Sorted|constructor].
  - intros Hlen. rewrite decide_True by done.
    by rewrite sort_Strings_Permutation, constValues_matching.
Qed.

(** The theorem on the demo program: the field of type Priority, whose
    three constants are high, medium and low, gets the enum high, low,
    medium; the field of type Mode, which has one constant, gets none. *)
Lemma extractFieldInfo_enum_witness :
  (∃ info,
     extractFieldInfo (L := AsciiLib.lib) Demo.U 1 Demo.prioField EmptyString
       = Some (Some info) ∧
     FieldInfo.Enum info = ["high"; "low"; "medium"]) ∧
  (∃ info,
     extractFieldInfo (L := AsciiLib.lib) Demo.U 1 Demo.modeField EmptyString
       = Some (Some info) ∧
     FieldInfo.Enum info = []).
Proof.
  split.
  - destruct (extractFieldInfo_enum (L := AsciiLib.lib) Demo.U 0 Demo.prioField
                EmptyString Demo.Priority) as (info & Hinfo & Henum & _).
    + reflexivity.
    + reflexivity.
    + split; [reflexivity|by vm_compute].
    + by repeat constructor.
    + exists info. split; [exact Hinfo|]. rewrite Henum. by vm_compute.
  - destruct (extractFieldInfo_enum (L := AsciiLib.lib) Demo.U 0 Demo.modeField
                EmptyString Demo.Mode) as (info & Hinfo & Henum & _).
    + reflexivity.
    + reflexivity.
    + split; [reflexivity|by vm_compute].
    + by repeat constructor.
    + exists info. split; [exact Hinfo|]. rewrite Henum. by vm_compute.
Defined.

(** C5, as the claim has it, fails on the type Level of the demo program.
    Its two constants have the same value x, so that one distinct value
    is found; the field of type Level, exported, without tag, still gets
    an enum: x, x. *)
Lemma enum_attached_with_one_distinct_value :
  types.Underlying Demo.U (types.Named Demo.Level) = types.Basic types.String ∧
  kept (L := AsciiLib.lib) Demo.levelField EmptyString ∧
  noExplicitEnum (L := AsciiLib.lib) EmptyString ∧
  matchingConstValues Demo.scope Demo.Level ≡ₚ ["x"; "x"] ∧
  length (remove_dups (constValues Demo.U Demo.Level)) = 1 ∧
  ¬ (2 ≤ length (remove_dups (constValues Demo.U Demo.Level))) ∧
  ∃ info,
    extractFieldInfo (L := AsciiLib.lib) Demo.U 1 Demo.levelField EmptyString
      = Some (Some info) ∧
    FieldInfo.Enum info = ["x"; "x"] ∧
    FieldInfo.Enum info ≠ [].
Proof.
  split; [reflexivity|]. split; [split; [reflexivity|by vm_compute]|].
  split; [by repeat constructor|].
  split; [by vm_compute|]. split; [by vm_compute|]. split; [vm_compute; lia|].
  eexists. split; [by vm_compute|]. by split.
Qed.

(** ** The template *)
Section template_facts.
Context `{L : GoLib}.

(** Strings built by the template are compared after nesting every
    append to the right. *)
Ltac same_text :=
  unfold concat_str; simpl; rewrite ?append_assoc; reflexivity.

(** The property entry the template writes for a field is the source of
    the property it denotes. *)
Lemma tmpl_property_prints (f : FieldInfo.t) :
  tmpl_property f = print_property (propertyOf f).
Proof.
  unfold tmpl_property, print_property, propertyOf, formatDefault. simpl.
  destruct (decide (FieldInfo.Description f = EmptyString));
    destruct (FieldInfo.HasDefault f);
    destruct (decide (FieldInfo.Enum f = []));
    destruct (decide (FieldInfo.Type_ f = "string"));
    try destruct (decide (FieldInfo.Type_ f = "boolean" ∨ FieldInfo.Type_ f = "integer"
                          ∨ FieldInfo.Type_ f = "number"));
    same_text.
Qed.

(** The Required entries the template writes are those of the required
    names, in the order of the fields. *)
Lemma tmpl_required_prints (fields : list FieldInfo.t) :
  concat_str (tmpl_required <$> fields) =
  concat_str ((λ n, concat_str [nl; ind 3; quote n; ","]) <$> requiredOf fields).
Proof.
  unfold requiredOf. induction fields as [|f fields IH]; [done|].
  rewrite fmap_cons, concat_str_cons, IH. unfold tmpl_required.
  destruct (FieldInfo.Required f) eqn:Hreq.
  - rewrite filter_cons_True by done. by rewrite !fmap_cons, concat_str_cons.
  - rewrite filter_cons_False by (by rewrite Hreq). done.
Qed.

(** The schema literal of the template is the source of [schemaOf]. *)
Lemma tmpl_schema_prints (fields : list FieldInfo.t) :
  tmpl_schema fields = print_schema (schemaOf fields).
Proof.
  unfold tmpl_schema, print_schema, schemaOf. simpl.
  rewrite tmpl_required_prints.
  assert (tmpl_property <$> fields = print_property <$> (propertyOf <$> fields)) as ->.
  { induction fields as [|f fields IH]; [done|].
    by rewrite !fmap_cons, IH, tmpl_property_prints. }
  same_text.
Qed.

(** Where the pieces are in the output. *)
Lemma tmpl_schema_in_type (t : TypeInfo.t) :
  infix_of (tmpl_schema (TypeInfo.Fields t)) (tmpl_type t).
Proof.
  unfold tmpl_type. eapply infix_of_concat_str; [|apply infix_of_refl].
  do 11 apply list_elem_of_further. apply list_elem_of_here.
Qed.

Lemma tmpl_resolved_binding_in_type (t : TypeInfo.t) :
  infix_of (tmpl_resolved_binding (TypeInfo.Name t)) (tmpl_type t).
Proof.
  unfold tmpl_type. eapply infix_of_concat_str; [|apply infix_of_refl].
  do 13 apply list_elem_of_further. apply list_elem_of_here.
Qed.

Lemma tmpl_type_in_output (package : string) (typs : list (option TypeInfo.t))
    (hasDefaults : bool) (buf : string) (t : TypeInfo.t) :
  tmpl_Execute package typs hasDefaults = Some buf →
  Some t ∈ typs →
  infix_of (tmpl_type t) buf.
Proof.
  unfold tmpl_Execute. intros Hbuf Hin.
  destruct (mapM (fmap tmpl_type) typs) as [bodies|] eqn:Hbodies; [|done].
  simpl in Hbuf. injection Hbuf as <-.
  apply mapM_Some_1 in Hbodies.
  assert (tmpl_type t ∈ bodies) as Hbody.
  { induction Hbodies as [|o body typs bodies Hob _ IH]; [by apply elem_of_nil in Hin|].
    apply elem_of_cons in Hin as [<-|Hin].
    - simpl in Hob. injection Hob as <-. apply list_elem_of_here.
    - apply list_elem_of_further. by apply IH. }
  apply infix_of_app_l, infix_of_app_r.
  eapply infix_of_concat_str; [exact Hbody|apply infix_of_refl].
Qed.

(** The execution fails on a nil type only. *)
Lemma tmpl_Execute_is_Some (package : string) (typs : list (option TypeInfo.t))
    (hasDefaults : bool) :
  is_Some (tmpl_Execute package typs hasDefaults) ↔ Forall is_Some typs.
Proof.
  unfold tmpl_Execute.
  destruct (mapM (fmap tmpl_type) typs) as [bodies|] eqn:Hbodies; simpl.
  - split; [intros _|by eauto].
    assert (is_Some (mapM (fmap tmpl_type) typs)) as Hs by by rewrite Hbodies.
    apply mapM_is_Some_1 in Hs. eapply Forall_impl; [exact Hs|].
    intros [t|]; simpl; [by eauto|by intros [? ?]].
  - split; [by intros [? ?]|]. intros Hall.
    assert (is_Some (mapM (fmap tmpl_type) typs)) as [? Hs]; [|congruence].
    apply mapM_is_Some_2. eapply Forall_impl; [exact Hall|].
    intros o [t ->]. simpl. by eauto.
Qed.

(** The required names. *)
Lemma elem_of_requiredOf (fields : list FieldInfo.t) (n : string) :
  n ∈ requiredOf fields ↔
  ∃ f, f ∈ fields ∧ FieldInfo.Required f = true ∧ FieldInfo.JSONName f = n.
Proof.
  unfold requiredOf. rewrite list_elem_of_fmap. split.
  - intros (f & -> & Hf). apply list_elem_of_filter in Hf as [Hreq Hin]. by exists f.
  - intros (f & Hin & Hreq & <-). exists f. split; [done|].
    by apply list_elem_of_filter.
Qed.

Lemma requiredOf_Permutation (fields fields' : list FieldInfo.t) :
  fields ≡ₚ fields' → requiredOf fields ≡ₚ requiredOf fields'.
Proof. unfold requiredOf. by intros ->. Qed.

Lemma requiredOf_NoDup (fields : list FieldInfo.t) :
  NoDup (FieldInfo.JSONName <$> fields) → NoDup (requiredOf fields).
Proof.
  intros Hnd. eapply sublist_NoDup; [exact Hnd|].
  unfold requiredOf. apply fmap_sublist, sublist_filter.
Qed.

(** A name is listed once for each required field that has it. *)
Lemma requiredOf_count (fields : list FieldInfo.t) (n : string) :
  length (filter (λ m, m = n) (requiredOf fields)) =
  length (filter (λ f, FieldInfo.Required f = true ∧ FieldInfo.JSONName f = n) fields).
Proof.
  unfold requiredOf. induction fields as [|f fields IH]; [done|].
  destruct (decide (FieldInfo.Required f = true)) as [Hreq|Hreq].
  - rewrite (filter_cons_True (λ f, FieldInfo.Required f = true)) by done.
    rewrite fmap_cons.
    destruct (decide (FieldInfo.JSONName f = n)) as [Hn|Hn].
    + rewrite (filter_cons_True (λ m, m = n)) by done.
      rewrite (filter_cons_True _ f) by done. simpl. by rewrite IH.
    + rewrite (filter_cons_False (λ m, m = n)) by done.
      by rewrite (filter_cons_False _ f) by (by intros [_ ?]).
  - rewrite (filter_cons_False (λ f, FieldInfo.Required f = true)) by done.
    by rewrite (filter_cons_False _ f) by (by intros [? _]).
Qed.

Lemma requiredOf_properties (fields : list FieldInfo.t) (n : string) :
  n ∈ requiredOf fields → n ∈ (propertyOf <$> fields).*1.
Proof.
  rewrite elem_of_requiredOf. intros (f & Hin & _ & <-).
  apply list_elem_of_fmap. exists (propertyOf f). split; [done|].
  apply list_elem_of_fmap. by exists f.
Qed.
End template_facts.

(** C7 -- the schema document emitted for a type, as amended. The
    literal written in the output for a type is the source of the
    document [schemaOf] of its fields. That document forbids additional
    properties; its required list holds the wire names of the fields
    marked required and nothing else, with one entry per required field:
    a name is listed as many times as required fields have it, hence
    exactly once when the wire names are unique, which the generator
    does not check; reordering the fields only reorders the list; and
    every required name is a key of the properties. *)
Theorem emitted_schema_closed_required `{L : GoLib} (t : TypeInfo.t) :
  let fields := TypeInfo.Fields t in
  let doc := schemaOf fields in
  (∀ package typs hasDefaults buf,
     tmpl_Execute package typs hasDefaults = Some buf →
     Some t ∈ typs →
     infix_of (print_schema doc) buf) ∧
  SchemaLit.AdditionalProperties doc = SchemaLit.NotAnything ∧
  (∀ n, n ∈ SchemaLit.Required doc ↔
        ∃ f, f ∈ fields ∧ FieldInfo.Required f = true ∧ FieldInfo.JSONName f = n) ∧
  (∀ n, length (filter (λ m, m = n) (SchemaLit.Required doc)) =
        length (filter (λ f, FieldInfo.Required f = true ∧ FieldInfo.JSONName f = n)
                  fields)) ∧
  length (SchemaLit.Required doc) =
    length (filter (λ f, FieldInfo.Required f = true) fields) ∧
  (NoDup (FieldInfo.JSONName <$> fields) → NoDup (SchemaLit.Required doc)) ∧
  (∀ fields', fields ≡ₚ fields' →
     SchemaLit.Required doc ≡ₚ SchemaLit.Required (schemaOf fields')) ∧
  (∀ n, n ∈ SchemaLit.Required doc → n ∈ (SchemaLit.Properties doc).*1).
Proof.
  simpl. split; [|split; [|split; [|split; [|split; [|split; [|split]]]]]].
  - intros package typs hasDefaults buf Hbuf Hin.
    rewrite <- tmpl_schema_prints.
    eapply infix_of_trans; [apply tmpl_schema_in_type|].
    by eapply tmpl_type_in_output.
  - done.
  - apply elem_of_requiredOf.
  - apply requiredOf_count.
  - unfold requiredOf. by rewrite length_fmap.
  - apply requiredOf_NoDup.
  - intros fields'. apply requiredOf_Permutation.
  - apply requiredOf_properties.
Qed.

(** The theorem on the type Search of the specification, with the fields
    Query (required) and Limit: the output contains the literal of its
    document, whose required list is query, the same when Limit is
    declared first. *)
Lemma emitted_schema_closed_required_witness :
  (∃ buf,
     tmpl_Execute (L := AsciiLib.lib) "demo" [Some Demo.searchInfo] false = Some buf ∧
     infix_of (print_schema (L := AsciiLib.lib)
                (schemaOf (L := AsciiLib.lib) [Demo.query; Demo.limit])) buf) ∧
  NoDup (SchemaLit.Required (schemaOf (L := AsciiLib.lib) [Demo.query; Demo.limit])) ∧
  SchemaLit.Required (schemaOf (L := AsciiLib.lib) [Demo.query; Demo.limit])
    ≡ₚ SchemaLit.Required (schemaOf (L := AsciiLib.lib) [Demo.limit; Demo.query]) ∧
  "query" ∈ (SchemaLit.Properties (schemaOf (L := AsciiLib.lib) [Demo.query; Demo.limit])).*1.
Proof.
  destruct (emitted_schema_closed_required (L := AsciiLib.lib) Demo.searchInfo)
    as (Hout & _ & _ & _ & _ & Hnodup & Hperm & Hkeys).
  split; [|split; [|split]].
  - eexists. split; [reflexivity|].
    apply (Hout "demo" [Some Demo.searchInfo] false); [reflexivity|].
    apply list_elem_of_here.
  - apply Hnodup. apply (bool_decide_unpack _). by vm_compute.
  - apply Hperm. apply perm_swap.
  - apply Hkeys. apply list_elem_of_here.
Defined.

(** C7, as the claim has it, fails on the struct Pair of the demo
    program. Its fields A and B are both tagged with the JSON name x and
    the directive required: findType extracts two descriptors, both
    marked required, and the required list of the emitted document is
    x, x; the name of a required field appears twice, not once. *)
Lemma required_name_listed_twice :
  extractFields (L := AsciiLib.lib) Demo.U 1 0 Demo2.pairFields Demo2.pairTags
    = Some Demo2.pairInfos ∧
  FieldInfo.Name <$> filter (λ f, FieldInfo.Required f = true) Demo2.pairInfos
    = ["A"; "B"] ∧
  SchemaLit.Required (schemaOf (L := AsciiLib.lib) Demo2.pairInfos) = ["x"; "x"] ∧
  ¬ NoDup (SchemaLit.Required (schemaOf (L := AsciiLib.lib) Demo2.pairInfos)) ∧
  ∃ buf,
    tmpl_Execute (L := AsciiLib.lib) "demo"
      [Some (TypeInfo.New "Pair" Demo2.pairInfos)] false = Some buf ∧
    infix_of (print_schema (L := AsciiLib.lib)
                (schemaOf (L := AsciiLib.lib) Demo2.pairInfos)) buf.
Proof.
  split; [by vm_compute|]. split; [by vm_compute|].
  split; [by vm_compute|]. split.
  - intros Hnd. apply NoDup_cons in Hnd as [Hnotin _]. apply Hnotin.
    vm_compute. apply list_elem_of_here.
  - eexists. split; [reflexivity|].
    rewrite <- tmpl_schema_prints.
    eapply infix_of_trans;
      [apply (tmpl_schema_in_type (L := AsciiLib.lib)
                (TypeInfo.New "Pair" Demo2.pairInfos))|].
    apply (tmpl_type_in_output (L := AsciiLib.lib) "demo"
             [Some (TypeInfo.New "Pair" Demo2.pairInfos)] false); [reflexivity|].
    apply list_elem_of_here.
Qed.

(** ** generate *)
Section generate_facts.
Context `{L : GoLib} (outputFile : string).

Lemma hasDefaults_agree (m1 m2 : gmap string TypeInfo.t) (names : list string) :
  (∀ name, name ∈ names → m1 !! name = m2 !! name) →
  hasDefaults m1 names = hasDefaults m2 names.
Proof.
  induction names as [|name names IH]; intros Hagree; [done|]. simpl.
  rewrite <- (Hagree name) by apply list_elem_of_here.
  destruct (m1 !! name) as [info|]; [|done].
  destruct (existsb FieldInfo.HasDefault (TypeInfo.Fields info)); [done|].
  apply IH. intros n Hn. by apply Hagree, list_elem_of_further.
Qed.

Lemma lookups_agree (m1 m2 : gmap string TypeInfo.t) (names : list string) :
  (∀ name, name ∈ names → m1 !! name = m2 !! name) →
  (λ name, m1 !! name) <$> names = (λ name, m2 !! name) <$> names.
Proof.
  induction names as [|name names IH]; intros Hagree; [done|].
  rewrite !fmap_cons, IH, (Hagree name); [done|apply list_elem_of_here|].
  intros n Hn. by apply Hagree, list_elem_of_further.
Qed.

(** generate never panics on a typeMap that holds every requested type,
    as the one Run builds does. *)
Lemma generate_writes (g : Generator.t) :
  (∀ name, name ∈ Generator.types g → is_Some (Generator.typeMap g !! name)) →
  ∃ w, generate outputFile g = Ok w.
Proof.
  intros Hall. unfold generate.
  assert (is_Some (hasDefaults (Generator.typeMap g) (Generator.types g)))
    as [hd ->].
  { induction (Generator.types g) as [|name names IH]; [by eauto|]. simpl.
    destruct (Hall name) as [info ->]; [apply list_elem_of_here|].
    destruct (existsb _ _); [by eauto|].
    apply IH. intros n Hn. by apply Hall, list_elem_of_further. }
  destruct (tmpl_Execute_is_Some (Generator.pkgName g)
              ((λ name, Generator.typeMap g !! name) <$> Generator.types g) hd)
    as [_ [buf ->]].
  { apply Forall_fmap, Forall_forall. intros name Hin. by apply Hall. }
  destruct (format_Source buf); by eauto.
Qed.
End generate_facts.

(** C9 -- the output is a function of the descriptors. Two generators for
    the same package name and the same list of types, whose typeMaps hold
    the same descriptor for each requested type, end the same way and
    write the same bytes: the output does not depend on the rest of the
    Generator, and no step of generate iterates over a map. *)
Theorem generate_deterministic `{L : GoLib} (outputFile : string)
    (g1 g2 : Generator.t) :
  Generator.pkgName g1 = Generator.pkgName g2 →
  Generator.types g1 = Generator.types g2 →
  (∀ name, name ∈ Generator.types g1 →
           Generator.typeMap g1 !! name = Generator.typeMap g2 !! name) →
  written_content (generate outputFile g1) = written_content (generate outputFile g2).
Proof.
  intros Hpkg Htypes Hagree. unfold generate.
  rewrite <- Htypes, <- Hpkg.
  rewrite <- (hasDefaults_agree _ _ _ Hagree), <- (lookups_agree _ _ _ Hagree).
  destruct (hasDefaults _ _) as [hd|]; [|done].
  destruct (tmpl_Execute _ _ _) as [buf|]; [|done].
  by destruct (format_Source buf).
Qed.

(** The theorem on two generators for the type Search: one in the
    directory of the package, the other elsewhere and with a further
    entry in its typeMap. Both write, and write the same bytes. *)
Lemma generate_deterministic_witness :
  ∃ bytes,
    written_content (generate (L := AsciiLib.lib) EmptyString
      (Generator.New "." ["Search"] "demo" "demo" {["Search" := Demo.searchInfo]}))
      = Ok bytes ∧
    written_content (generate (L := AsciiLib.lib) EmptyString
      (Generator.New "out" ["Search"] "demo" "other"
         (<["Empty" := Demo.emptyInfo]> {["Search" := Demo.searchInfo]})))
      = Ok bytes.
Proof.
  eexists. split; [by vm_compute|].
  rewrite <- (generate_deterministic (L := AsciiLib.lib) EmptyString
    (Generator.New "." ["Search"] "demo" "demo" {["Search" := Demo.searchInfo]})).
  - by vm_compute.
  - reflexivity.
  - reflexivity.
  - intros name Hname. apply list_elem_of_singleton in Hname as ->. by vm_compute.
Defined.

(** C10 -- the resolved binding of the generated file. For every type of
    the output, the template writes the line that assigns the first
    result of Resolve to the variable of the resolved schema and the
    second, the error, to the blank identifier. MCPResolvedSchema
    therefore returns the first result of Resolve, whatever the second
    is: when Resolve, which returns nil beside an error, fails on the
    document of the type, MCPResolvedSchema returns nil, and its result
    carries no error. *)
Theorem resolved_binding_discards_error `{L : GoLib} {Resolved Err : Type}
    (Resolve : SchemaLit.t → option Resolved * option Err) (t : TypeInfo.t) :
  (∀ package typs hasDefaults buf,
     tmpl_Execute package typs hasDefaults = Some buf →
     Some t ∈ typs →
     infix_of (tab +:+ "_" +:+ ToLower (TypeInfo.Name t) +:+ "Resolved, _ = _" +:+
               ToLower (TypeInfo.Name t) +:+ "Schema.Resolve(nil)" +:+ nl) buf) ∧
  MCPSchema (initBindings Resolve t) = schemaOf (TypeInfo.Fields t) ∧
  MCPResolvedSchema (initBindings Resolve t) = (Resolve (schemaOf (TypeInfo.Fields t))).1 ∧
  (∀ err,
     (∀ doc resolved err', Resolve doc = (resolved, Some err') → resolved = None) →
     (Resolve (schemaOf (TypeInfo.Fields t))).2 = Some err →
     MCPResolvedSchema (initBindings Resolve t) = None).
Proof.
  assert (MCPResolvedSchema (initBindings Resolve t)
          = (Resolve (schemaOf (TypeInfo.Fields t))).1) as Hfst.
  { unfold MCPResolvedSchema, initBindings.
    by destruct (Resolve (schemaOf (TypeInfo.Fields t))). }
  split; [|split; [|split]].
  - intros package typs hasDefaults buf Hbuf Hin.
    eapply infix_of_trans; [|by eapply tmpl_type_in_output].
    eapply infix_of_trans; [|apply tmpl_resolved_binding_in_type].
    unfold tmpl_resolved_binding, concat_str, ind. simpl.
    rewrite !append_nil_r. apply infix_of_refl.
  - unfold MCPSchema, initBindings.
    by destruct (Resolve (schemaOf (TypeInfo.Fields t))).
  - exact Hfst.
  - intros err Hnil Herr. rewrite Hfst.
    destruct (Resolve (schemaOf (TypeInfo.Fields t))) as [resolved err'] eqn:HR.
    simpl in *. subst err'. by eapply Hnil.
Qed.

(** The theorem on a type without fields, whose document the resolution
    routine of the demo rejects: the output has the binding line, and
    MCPResolvedSchema returns nil. *)
Lemma resolved_binding_discards_error_witness :
  (∃ buf,
     tmpl_Execute (L := AsciiLib.lib) "demo" [Some Demo.emptyInfo] false = Some buf ∧
     infix_of (tab +:+ "_emptyResolved, _ = _emptySchema.Resolve(nil)" +:+ nl) buf) ∧
  MCPResolvedSchema (initBindings (L := AsciiLib.lib) Demo.Resolve Demo.emptyInfo) = None.
Proof.
  destruct (resolved_binding_discards_error (L := AsciiLib.lib) Demo.Resolve
              Demo.emptyInfo) as (Hline & _ & _ & Hnil).
  split.
  - eexists. split; [reflexivity|].
    apply (Hline "demo" [Some Demo.emptyInfo] false); [reflexivity|].
    apply list_elem_of_here.
  - apply (Hnil "no properties").
    + intros doc resolved err'. unfold Demo.Resolve.
      destruct (SchemaLit.Properties doc); by intros [= <- _].
    + reflexivity.
Defined.

(** ** The run-time resolver *)
Section resolver_facts.
Context {K : Type} `{Countable K} {Schema Resolved Err : Type}.
Context (capability : K → @Resolver.Capability Schema Resolved).
Context (analyse : K → Schema) (Resolve : Schema → Err + Resolved).

#[local] Abbreviation State := (@Resolver.State K _ _ Schema Resolved).
#[local] Abbreviation Event := (@Resolver.Event K Schema).
#[local] Abbreviation resolve := (Resolver.resolve capability analyse Resolve).
#[local] Abbreviation requests := (Resolver.requests capability analyse Resolve).
#[local] Abbreviation documentOf := (Resolver.documentOf capability analyse).
#[local] Abbreviation consistent := (Resolver.consistent capability analyse Resolve).
#[local] Abbreviation cache := Resolver.cache.
#[local] Abbreviation trace := Resolver.trace.
#[local] Abbreviation analyses := Resolver.analyses.
#[local] Abbreviation resolutions := Resolver.resolutions.

(** One request, case by case. *)
Lemma resolve_eq (t : K) (s : State) :
  resolve t s =
    match cache s !! t with
    | Some entry => (inr entry, s)
    | None =>
        match capability t with
        | Resolver.ResolvedProvider doc resolved =>
            (inr (doc, resolved),
             Resolver.NewState (<[t := (doc, resolved)]> (cache s)) (trace s))
        | Resolver.BasicProvider doc =>
            let tr := trace s ++ [Resolver.ResolutionRun t doc] in
            match Resolve doc with
            | inr resolved =>
                (inr (doc, resolved),
                 Resolver.NewState (<[t := (doc, resolved)]> (cache s)) tr)
            | inl e => (inl e, Resolver.NewState (cache s) tr)
            end
        | Resolver.NoProvider =>
            let doc := analyse t in
            let tr := (trace s ++ [Resolver.Analysed t])
                      ++ [Resolver.ResolutionRun t doc] in
            match Resolve doc with
            | inr resolved =>
                (inr (doc, resolved),
                 Resolver.NewState (<[t := (doc, resolved)]> (cache s)) tr)
            | inl e => (inl e, Resolver.NewState (cache s) tr)
            end
        end
    end.
Proof.
  unfold Resolver.resolve, mbind, Resolver.M_bind, Resolver.bind,
    Resolver.getByType. simpl.
  destruct (cache s !! t) as [entry|]; [done|].
  destruct (capability t) as [|doc|doc resolved]; simpl.
  - unfold Resolver.runAnalysis, Resolver.runResolution, mbind, Resolver.M_bind,
      Resolver.bind. simpl.
    by destruct (Resolve (analyse t)).
  - unfold Resolver.runResolution, mbind, Resolver.M_bind, Resolver.bind. simpl.
    by destruct (Resolve doc).
  - done.
Qed.

Lemma requests_snoc (ts : list K) (t : K) (s : State) :
  requests (ts ++ [t]) s = (resolve t (requests ts s)).2.
Proof. unfold Resolver.requests. by rewrite foldl_snoc. Qed.

Lemma requests_app (ts ts' : list K) (s : State) :
  requests (ts ++ ts') s = requests ts' (requests ts s).
Proof. unfold Resolver.requests. by rewrite foldl_app. Qed.

(** Counting the work of a type. *)
Lemma resolutions_snoc (t : K) (tr : list Event) (ev : Event) :
  resolutions t (tr ++ [ev]) =
  resolutions t tr + (if Resolver.is_resolution t ev then 1 else 0).
Proof.
  unfold Resolver.resolutions. rewrite filter_app, length_app. f_equal.
  destruct (Resolver.is_resolution t ev) eqn:Hev.
  - by rewrite filter_cons_True.
  - rewrite filter_cons_False; [done|]. by rewrite Hev.
Qed.

Lemma analyses_snoc (t : K) (tr : list Event) (ev : Event) :
  analyses t (tr ++ [ev]) =
  analyses t tr + (if Resolver.is_analysis t ev then 1 else 0).
Proof.
  unfold Resolver.analyses. rewrite filter_app, length_app. f_equal.
  destruct (Resolver.is_analysis t ev) eqn:Hev.
  - by rewrite filter_cons_True.
  - rewrite filter_cons_False; [done|]. by rewrite Hev.
Qed.

Lemma consistent_init (t : K) : consistent Resolver.init t.
Proof.
  unfold Resolver.consistent. simpl. rewrite lookup_empty.
  destruct (capability t); simpl; repeat split;
    done || (intros Hpos; cbv in Hpos; lia).
Qed.

(** A request for another type changes nothing for this one. *)
Lemma resolve_other (t t' : K) (s : State) :
  t' ≠ t →
  cache (resolve t' s).2 !! t = cache s !! t ∧
  resolutions t (trace (resolve t' s).2) = resolutions t (trace s) ∧
  analyses t (trace (resolve t' s).2) = analyses t (trace s).
Proof.
  intros Hne. rewrite resolve_eq.
  destruct (cache s !! t') as [entry|]; [done|].
  destruct (capability t') as [|doc|doc resolved]; simpl.
  - destruct (Resolve (analyse t')); simpl;
      rewrite ?lookup_insert_ne, !resolutions_snoc, !analyses_snoc by done; simpl;
      rewrite !bool_decide_eq_false_2 by done; repeat split; lia.
  - destruct (Resolve doc); simpl;
      rewrite ?lookup_insert_ne, !resolutions_snoc, !analyses_snoc by done; simpl;
      rewrite !bool_decide_eq_false_2 by done; repeat split; lia.
  - by rewrite lookup_insert_ne.
Qed.

Lemma consistent_resolve (t t' : K) (s : State) :
  consistent s t → consistent (resolve t' s).2 t.
Proof.
  destruct (decide (t' = t)) as [->|Hne].
  2:{ destruct (resolve_other t t' s Hne) as (Hc & Hr & Ha).
      unfold Resolver.consistent. by rewrite Hc, Hr, Ha. }
  unfold Resolver.consistent. rewrite resolve_eq.
  destruct (cache s !! t) as [[doc resolved]|] eqn:Hcache.
  { simpl. by rewrite Hcache. }
  unfold Resolver.documentOf.
  destruct (capability t) as [|doc|doc resolved] eqn:Hcap; simpl.
  - intros [Heq Hfail].
    destruct (Resolve (analyse t)) as [e|resolved] eqn:HR; simpl;
      rewrite ?lookup_insert_eq, ?Hcache, !resolutions_snoc, !analyses_snoc; simpl;
      rewrite !bool_decide_eq_true_2 by done.
    + split; [lia|]. by eauto.
    + destruct (decide (0 < resolutions t (trace s))) as [Hpos|Hzero].
      * destruct (Hfail Hpos) as [e He]. congruence.
      * repeat split; done || lia.
  - intros [Ha Hfail].
    destruct (Resolve doc) as [e|resolved] eqn:HR; simpl;
      rewrite ?lookup_insert_eq, ?Hcache, !resolutions_snoc, !analyses_snoc; simpl;
      rewrite ?bool_decide_eq_true_2 by done.
    + split; [lia|]. by eauto.
    + destruct (decide (0 < resolutions t (trace s))) as [Hpos|Hzero].
      * destruct (Hfail Hpos) as [e He]. congruence.
      * repeat split; done || lia.
  - intros [Hr Ha]. by rewrite lookup_insert_eq.
Qed.

Lemma consistent_requests (ts : list K) (s : State) (t : K) :
  consistent s t → consistent (requests ts s) t.
Proof.
  intros Hs. induction ts as [|t' ts IH] using rev_ind; [done|].
  rewrite requests_snoc. by apply consistent_resolve.
Qed.

(** An entry, once stored, stays. *)
Lemma resolve_keeps_entry (t t' : K) (s : State) (entry : Schema * Resolved) :
  cache s !! t = Some entry → cache (resolve t' s).2 !! t = Some entry.
Proof.
  intros Hentry. destruct (decide (t' = t)) as [->|Hne].
  - rewrite resolve_eq. by rewrite Hentry.
  - destruct (resolve_other t t' s Hne) as (-> & _). done.
Qed.

Lemma requests_keep_entry (ts : list K) (t : K) (s : State)
    (entry : Schema * Resolved) :
  cache s !! t = Some entry → cache (requests ts s) !! t = Some entry.
Proof.
  intros Hentry. induction ts as [|t' ts IH] using rev_ind; [done|].
  rewrite requests_snoc. by apply resolve_keeps_entry.
Qed.
End resolver_facts.

Section resolver_claims.
Context {K : Type} `{Countable K} {Schema Resolved Err : Type}.
Context (capability : K → @Resolver.Capability Schema Resolved).
Context (analyse : K → Schema) (Resolve : Schema → Err + Resolved).

#[local] Abbreviation State := (@Resolver.State K _ _ Schema Resolved).
#[local] Abbreviation resolve := (Resolver.resolve capability analyse Resolve).
#[local] Abbreviation requests := (Resolver.requests capability analyse Resolve).
#[local] Abbreviation documentOf := (Resolver.documentOf capability analyse).
#[local] Abbreviation consistent := (Resolver.consistent capability analyse Resolve).
#[local] Abbreviation cache := Resolver.cache.
#[local] Abbreviation trace := Resolver.trace.
#[local] Abbreviation analyses := Resolver.analyses.
#[local] Abbreviation resolutions := Resolver.resolutions.

(** C1 -- the Override Protocol, in any state that a sequence of
    requests leads to from the empty cache. For a type that implements
    ResolvedProvider, resolve returns the document of its BasicProvider
    with its pre-resolved schema and does no work: the request adds no
    event, and neither an analysis nor a call of the resolution routine
    was ever recorded for the type. For a type that implements
    BasicProvider only, resolve returns its document with what the
    resolution routine makes of it, or the error of the routine; no
    analysis is ever recorded for the type; a first request calls the
    routine once, on that document, and does nothing else; and when the
    request succeeds the routine has been called exactly once for the
    type since the cache was empty. *)
Theorem resolve_uses_providers (ts : list K) (t : K) :
  let s := requests ts Resolver.init in
  (∀ doc resolved,
     capability t = Resolver.ResolvedProvider doc resolved →
     (resolve t s).1 = inr (doc, resolved) ∧
     trace (resolve t s).2 = trace s ∧
     analyses t (trace (resolve t s).2) = 0 ∧
     resolutions t (trace (resolve t s).2) = 0) ∧
  (∀ doc,
     capability t = Resolver.BasicProvider doc →
     (resolve t s).1 =
       match Resolve doc with
       | inr resolved => inr (doc, resolved)
       | inl e => inl e
       end ∧
     analyses t (trace (resolve t s).2) = 0 ∧
     (cache s !! t = None →
      trace (resolve t s).2 = trace s ++ [Resolver.ResolutionRun t doc]) ∧
     (∀ entry, (resolve t s).1 = inr entry →
               resolutions t (trace (resolve t s).2) = 1)).
Proof.
  intros s.
  assert (consistent s t) as Hs
    by apply consistent_requests, consistent_init.
  pose proof (consistent_resolve capability analyse Resolve t t s Hs) as Hs'.
  unfold Resolver.consistent, Resolver.documentOf in Hs, Hs'.
  rewrite resolve_eq in Hs' |- *.
  split.
  - intros doc resolved Hcap. rewrite Hcap in Hs, Hs' |- *.
    destruct (cache s !! t) as [[doc' resolved']|] eqn:Hcache; simpl in *.
    + by destruct Hs as (-> & -> & ? & ?).
    + by destruct Hs.
  - intros doc Hcap. rewrite Hcap in Hs, Hs' |- *.
    destruct (cache s !! t) as [[doc' resolved']|] eqn:Hcache; simpl in *.
    + destruct Hs as (-> & HR & ? & ?). by rewrite HR.
    + destruct (Resolve doc) as [e|resolved] eqn:HR; simpl in *.
      * rewrite Hcache in Hs'. by destruct Hs'.
      * rewrite lookup_insert_eq in Hs'. by destruct Hs' as (_ & _ & ? & ?).
Qed.

(** C2 -- resolved once, in any state that a sequence of requests
    leads to from the empty cache. A request that succeeds leaves its
    pair stored for the type, with at most one analysis and at most one
    call of the resolution routine recorded for the type. When the cache
    holds an entry for a type, resolve returns that entry and leaves the
    state as it is, the record of work included; at most one analysis
    and one call of the routine were recorded for the type; and whatever
    requests follow, the entry is still the same and no further work is
    recorded. For a type whose document the routine accepts, no state
    records more than one analysis or more than one call of the routine,
    entry or not: work is recorded more than once for a type only while
    it has no entry and the routine rejects its document, the retries of
    a failed resolution. *)
Theorem resolve_cached_once (ts : list K) (t : K) :
  let s := requests ts Resolver.init in
  (∀ entry,
     (resolve t s).1 = inr entry →
     cache (resolve t s).2 !! t = Some entry ∧
     analyses t (trace (resolve t s).2) ≤ 1 ∧
     resolutions t (trace (resolve t s).2) ≤ 1) ∧
  (∀ entry,
     cache s !! t = Some entry →
     resolve t s = (inr entry, s) ∧
     analyses t (trace s) ≤ 1 ∧
     resolutions t (trace s) ≤ 1 ∧
     (∀ ts',
        cache (requests ts' s) !! t = Some entry ∧
        (resolve t (requests ts' s)).1 = inr entry ∧
        analyses t (trace (requests ts' s)) = analyses t (trace s) ∧
        resolutions t (trace (requests ts' s)) = resolutions t (trace s))) ∧
  (∀ resolved,
     Resolve (documentOf t) = inr resolved →
     analyses t (trace s) ≤ 1 ∧ resolutions t (trace s) ≤ 1) ∧
  (1 < analyses t (trace s) ∨ 1 < resolutions t (trace s) →
   cache s !! t = None ∧ ∃ e, Resolve (documentOf t) = inl e).
Proof.
  intros s.
  assert (∀ s', consistent s' t → is_Some (cache s' !! t) →
     analyses t (trace s') ≤ 1 ∧ resolutions t (trace s') ≤ 1) as Honce.
  { intros s' Hs' [[doc resolved] Hentry]. revert Hs'.
    unfold Resolver.consistent. rewrite Hentry. intros [_ Hs'].
    destruct (capability t); lia. }
  assert (∀ s', consistent s' t → cache s' !! t = None →
     (0 < analyses t (trace s') ∨ 0 < resolutions t (trace s')) →
     ∃ e, Resolve (documentOf t) = inl e) as Hfailed.
  { intros s' Hs' Hnone. revert Hs'. unfold Resolver.consistent. rewrite Hnone.
    unfold Resolver.documentOf.
    destruct (capability t); intros [Ha Hfail] Hpos; [| |lia]; apply Hfail; lia. }
  assert (consistent s t) as Hs
    by apply consistent_requests, consistent_init.
  pose proof (consistent_resolve capability analyse Resolve t t s Hs) as Hs'.
  split; [|split; [|split]].
  - intros entry Hres.
    assert (cache (resolve t s).2 !! t = Some entry) as Hstored.
    { revert Hres. rewrite resolve_eq.
      destruct (cache s !! t) as [entry'|] eqn:Hcache; simpl.
      - intros [= ->]. done.
      - destruct (capability t) as [|doc|doc resolved]; simpl.
        + destruct (Resolve (analyse t)); simpl; [done|].
          intros [= <-]. apply lookup_insert_eq.
        + destruct (Resolve doc); simpl; [done|].
          intros [= <-]. apply lookup_insert_eq.
        + intros [= <-]. apply lookup_insert_eq. }
    split; [done|]. apply Honce; [done|by eauto].
  - intros entry Hentry.
    split; [by rewrite resolve_eq, Hentry|].
    destruct (Honce s Hs) as [Ha Hr]; [by eauto|].
    split; [done|]. split; [done|].
    intros ts'.
    pose proof (requests_keep_entry capability analyse Resolve ts' t s entry Hentry)
      as Hkept.
    split; [done|]. split; [by rewrite resolve_eq, Hkept|].
    assert (consistent (requests ts' s) t) as Hlater by by apply consistent_requests.
    revert Hs Hlater. unfold Resolver.consistent. rewrite Hentry, Hkept.
    destruct entry as [doc resolved]. intros [_ Hnow] [_ Hthen].
    destruct (capability t); lia.
  - intros resolved HR.
    destruct (cache s !! t) as [entry|] eqn:Hcache; [apply Honce; by eauto|].
    destruct (decide (0 < analyses t (trace s) ∨ 0 < resolutions t (trace s)))
      as [Hpos|Hzero]; [|lia].
    destruct (Hfailed s Hs Hcache Hpos) as [e He]. congruence.
  - intros Hmany.
    destruct (cache s !! t) as [entry|] eqn:Hcache.
    { destruct (Honce s Hs) as [Ha Hr]; [by eauto|]. lia. }
    split; [done|]. apply (Hfailed s Hs Hcache). lia.
Qed.

(** C3 -- a failed resolution is not cached. When resolve returns an
    error for a type, the cache is left as it was and has no entry for
    the type; the next request for the type calls the resolution
    routine again, which fails again, and the cache is still
    unchanged. *)
Theorem resolve_failure_retried (s : State) (t : K) (e : Err) :
  (resolve t s).1 = inl e →
  let s' := (resolve t s).2 in
  cache s' = cache s ∧
  cache s' !! t = None ∧
  (resolve t s').1 = inl e ∧
  resolutions t (trace (resolve t s').2) = S (resolutions t (trace s')) ∧
  cache (resolve t s').2 = cache s.
Proof.
  intros Hfail s'. subst s'. rewrite resolve_eq in Hfail |- *.
  destruct (cache s !! t) as [entry|] eqn:Hcache; [done|].
  destruct (capability t) as [|doc|doc resolved] eqn:Hcap; simpl in *; [| |done].
  - destruct (Resolve (analyse t)) as [e'|resolved] eqn:HR; [|done]. simpl in *.
    injection Hfail as ->. rewrite resolve_eq. simpl. rewrite Hcache, Hcap, HR. simpl.
    repeat split; try done.
    rewrite !resolutions_snoc. simpl. rewrite !bool_decide_eq_true_2 by done. lia.
  - destruct (Resolve doc) as [e'|resolved] eqn:HR; [|done]. simpl in *.
    injection Hfail as ->. rewrite resolve_eq. simpl. rewrite Hcache, Hcap, HR. simpl.
    repeat split; try done.
    rewrite !resolutions_snoc. simpl. rewrite !bool_decide_eq_true_2 by done. lia.
Qed.
End resolver_claims.

(** The resolver theorems on the program of the demo: Pre implements
    ResolvedProvider, Basic and Bad implement BasicProvider, Plain
    neither, and the resolution routine rejects the document of Bad. *)
Lemma resolve_uses_providers_witness :
  let s := Resolver.requests Demo.capability Demo.analyse Demo.resolution
             ["Plain"; "Bad"] Resolver.init in
  ((Resolver.resolve Demo.capability Demo.analyse Demo.resolution "Pre" s).1
     = inr ("docPre", "resolvedPre") ∧
   Resolver.trace (Resolver.resolve Demo.capability Demo.analyse Demo.resolution "Pre" s).2
     = Resolver.trace s) ∧
  ((Resolver.resolve Demo.capability Demo.analyse Demo.resolution "Basic" s).1
     = inr ("docBasic", "resolved:docBasic") ∧
   Resolver.trace (Resolver.resolve Demo.capability Demo.analyse Demo.resolution "Basic" s).2
     = Resolver.trace s ++ [Resolver.ResolutionRun "Basic" "docBasic"]).
Proof.
  intros s. split.
  - destruct (resolve_uses_providers Demo.capability Demo.analyse Demo.resolution
                ["Plain"; "Bad"] "Pre") as [Hpre _].
    destruct (Hpre "docPre" "resolvedPre") as (Hres & Htrace & _); [reflexivity|].
    split; [exact Hres|exact Htrace].
  - destruct (resolve_uses_providers Demo.capability Demo.analyse Demo.resolution
                ["Plain"; "Bad"] "Basic") as [_ Hbasic].
    destruct (Hbasic "docBasic") as (Hres & _ & Htrace & _); [reflexivity|].
    split; [exact Hres|]. apply Htrace. by vm_compute.
Defined.

Lemma resolve_cached_once_witness :
  let s := Resolver.requests Demo.capability Demo.analyse Demo.resolution
             ["Basic"; "Plain"] Resolver.init in
  Resolver.cache
    (Resolver.resolve Demo.capability Demo.analyse Demo.resolution "Plain"
       Resolver.init).2 !! "Plain"
    = Some ("reflected:Plain", "resolved:reflected:Plain") ∧
  Resolver.resolve Demo.capability Demo.analyse Demo.resolution "Basic" s
    = (inr ("docBasic", "resolved:docBasic"), s) ∧
  Resolver.resolutions "Basic" (Resolver.trace s) ≤ 1 ∧
  Resolver.resolutions "Basic"
    (Resolver.trace (Resolver.requests Demo.capability Demo.analyse Demo.resolution
                       ["Basic"; "Bad"; "Basic"] s))
    = Resolver.resolutions "Basic" (Resolver.trace s) ∧
  Resolver.analyses "Plain"
    (Resolver.trace (Resolver.requests Demo.capability Demo.analyse Demo.resolution
                       ["Plain"; "Plain"; "Plain"] Resolver.init)) ≤ 1.
Proof.
  intros s. split; [|split; [|split; [|split]]].
  - destruct (resolve_cached_once Demo.capability Demo.analyse Demo.resolution
                [] "Plain") as (Hstored & _).
    destruct (Hstored ("reflected:Plain", "resolved:reflected:Plain")) as (Hentry & _);
      [reflexivity|exact Hentry].
  - destruct (resolve_cached_once Demo.capability Demo.analyse Demo.resolution
                ["Basic"; "Plain"] "Basic") as (_ & Hcached & _).
    destruct (Hcached ("docBasic", "resolved:docBasic")) as (Hsame & _);
      [by vm_compute|exact Hsame].
  - destruct (resolve_cached_once Demo.capability Demo.analyse Demo.resolution
                ["Basic"; "Plain"] "Basic") as (_ & Hcached & _).
    destruct (Hcached ("docBasic", "resolved:docBasic")) as (_ & _ & Honce & _);
      [by vm_compute|exact Honce].
  - destruct (resolve_cached_once Demo.capability Demo.analyse Demo.resolution
                ["Basic"; "Plain"] "Basic") as (_ & Hcached & _).
    destruct (Hcached ("docBasic", "resolved:docBasic")) as (_ & _ & _ & Hlater);
      [by vm_compute|].
    by destruct (Hlater ["Basic"; "Bad"; "Basic"]) as (_ & _ & _ & Hwork).
  - destruct (resolve_cached_once Demo.capability Demo.analyse Demo.resolution
                ["Plain"; "Plain"; "Plain"] "Plain") as (_ & _ & Hresolves & _).
    destruct (Hresolves "resolved:reflected:Plain") as [Ha _]; [reflexivity|exact Ha].
Defined.

Lemma resolve_failure_retried_witness :
  let s' := (Resolver.resolve Demo.capability Demo.analyse Demo.resolution "Bad"
               Resolver.init).2 in
  Resolver.cache s' = ∅ ∧
  (Resolver.resolve Demo.capability Demo.analyse Demo.resolution "Bad" s').1
    = inl "rejected" ∧
  Resolver.resolutions "Bad"
    (Resolver.trace (Resolver.resolve Demo.capability Demo.analyse Demo.resolution
                       "Bad" s').2)
    = S (Resolver.resolutions "Bad" (Resolver.trace s')).
Proof.
  intros s'.
  destruct (resolve_failure_retried Demo.capability Demo.analyse Demo.resolution
              Resolver.init "Bad" "rejected") as (Hcache & _ & Hagain & Hwork & _).
  - by vm_compute.
  - split; [exact Hcache|]. split; [exact Hagain|exact Hwork].
Defined.

(** ** Run *)
Section Run_facts.
Context `{L : GoLib} (U : types.Universe) (outputFile : string).

(** The typeMap that Run builds keeps what it held and holds every
    requested type. *)
Lemma findTypes_complete (fuel : nat) (pkg : Package) (names : list string)
    (m m' : gmap string TypeInfo.t) :
  findTypes U fuel pkg names m = Ok m' →
  (∀ name, is_Some (m !! name) → is_Some (m' !! name)) ∧
  (∀ name, name ∈ names → is_Some (m' !! name)).
Proof.
  revert m. induction names as [|typeName names IH]; intros m; simpl.
  - intros [= <-]. split; [done|]. intros name Hin. by apply elem_of_nil in Hin.
  - destruct (findType U fuel (Package_Path pkg) (Package_Name pkg) typeName)
      as [info| | |]; try done.
    intros Hrest. destruct (IH _ Hrest) as [Hkeep Hnames].
    assert (∀ name, is_Some (m !! name) ∨ name = typeName → is_Some (m' !! name))
      as Hboth.
    { intros name Hname. apply Hkeep.
      destruct (decide (typeName = name)) as [->|Hne].
      - rewrite lookup_insert_eq. by eauto.
      - rewrite lookup_insert_ne by done. by destruct Hname. }
    split; [by eauto|].
    intros name Hin. apply elem_of_cons in Hin as [->|Hin]; by eauto.
Qed.

(** Run never dereferences a nil descriptor: when every type is found
    within the fuel, it writes. *)
Lemma Run_writes (fuel : nat) (dir : string) (names : list string)
    (pkg : Package) (pkgs : list Package) (m : gmap string TypeInfo.t) :
  Package_Errors pkg = 0 →
  findTypes U fuel pkg names ∅ = Ok m →
  ∃ w, Run U outputFile fuel dir names (Some (pkg :: pkgs)) = Ok w.
Proof.
  intros Herr Hm. unfold Run. rewrite Herr, Hm. simpl.
  apply generate_writes. simpl.
  by destruct (findTypes_complete fuel pkg names ∅ m Hm) as [_ Hall].
Qed.
End Run_facts.

(** ** strings.Split, strings.HasPrefix and strings.TrimPrefix *)

Lemma Split_not_nil (s : string) (sep : ascii) : Split s sep ≠ [].
Proof.
  destruct s as [|c s]; simpl; [done|].
  destruct (Ascii.eqb c sep); [done|]. by destruct (Split s sep).
Qed.

Lemma Split_cons_sep (s : string) (sep : ascii) :
  Split (String sep s) sep = EmptyString :: Split s sep.
Proof. simpl. by rewrite Ascii.eqb_refl. Qed.

Lemma Split_cons_other (c : ascii) (s : string) (sep : ascii) :
  c ≠ sep →
  Split (String c s) sep =
    String c (default EmptyString (head (Split s sep))) :: tail (Split s sep).
Proof.
  intros Hne. simpl.
  destruct (Ascii.eqb_spec c sep) as [->|_]; [done|].
  pose proof (Split_not_nil s sep). by destruct (Split s sep).
Qed.

(** A part that has no separator is one part, also before a separator. *)
Lemma Split_part (part : string) (sep : ascii) :
  occurs sep part = false → Split part sep = [part].
Proof.
  induction part as [|c part IH]; [done|]. simpl. intros Hocc.
  apply orb_false_iff in Hocc as [Hc Hocc]. rewrite Hc, IH by done. done.
Qed.

Lemma Split_part_sep (part rest : string) (sep : ascii) :
  occurs sep part = false →
  Split (part +:+ String sep rest) sep = part :: Split rest sep.
Proof.
  induction part as [|c part IH]; intros Hocc.
  - change (EmptyString +:+ String sep rest) with (String sep rest).
    apply Split_cons_sep.
  - simpl in Hocc. apply orb_false_iff in Hocc as [Hc Hocc].
    change (String c part +:+ String sep rest)
      with (String c (part +:+ String sep rest)).
    simpl. by rewrite Hc, IH.
Qed.

Lemma Join_cons (part : string) (parts : list string) (sep : ascii) :
  parts ≠ [] →
  Join (part :: parts) sep = part +:+ String sep (Join parts sep).
Proof. unfold Join. simpl. by destruct parts. Qed.

(** Splitting and joining. The parts of a split are never none and
    none of them holds the separator; joined with the separator they give
    the string back; and the split of a join of parts without separator
    gives the parts back. *)
Lemma Split_Join (sep : ascii) :
  (∀ s, Split s sep ≠ [] ∧
        Forall (λ part, occurs sep part = false) (Split s sep) ∧
        Join (Split s sep) sep = s) ∧
  (∀ parts, parts ≠ [] →
            Forall (λ part, occurs sep part = false) parts →
            Split (Join parts sep) sep = parts).
Proof.
  split.
  - intros s. split; [apply Split_not_nil|].
    induction s as [|c s [IHocc IHjoin]]; [by repeat constructor|].
    destruct (decide (c = sep)) as [->|Hne].
    + rewrite Split_cons_sep. split; [by constructor|].
      rewrite Join_cons by apply Split_not_nil. by rewrite IHjoin.
    + rewrite Split_cons_other by done.
      pose proof (Split_not_nil s sep) as Hnil.
      destruct (Split s sep) as [|part parts]; [done|]. simpl.
      apply Forall_cons in IHocc as [Hpart Hparts]. split.
      * constructor; [|done]. simpl. rewrite Hpart.
        by destruct (Ascii.eqb_spec c sep).
      * destruct parts as [|part' parts].
        -- unfold Join in *. simpl in *. by rewrite IHjoin.
        -- rewrite Join_cons in IHjoin |- * by done. by rewrite <- IHjoin.
  - intros parts Hnil Hocc. induction Hocc as [|part parts Hpart Hparts IH]; [done|].
    destruct parts as [|part' parts].
    + unfold Join. simpl. by apply Split_part.
    + rewrite Join_cons by done. rewrite Split_part_sep by done.
      by rewrite IH.
Qed.

Lemma Split_no_sep (s : string) (sep : ascii) (part : string) :
  part ∈ Split s sep → occurs sep part = false.
Proof.
  destruct (Split_Join sep) as [Hsplit _]. destruct (Hsplit s) as (_ & Hall & _).
  rewrite Forall_forall in Hall. apply Hall.
Qed.

Lemma occurs_app (c : ascii) (s t : string) :
  occurs c (s +:+ t) = occurs c s || occurs c t.
Proof.
  induction s as [|a s IH]; [done|].
  change (String a s +:+ t) with (String a (s +:+ t)). simpl.
  by rewrite IH, orb_assoc.
Qed.

(** A part of a split has only bytes of the string. *)
Lemma Split_occurs (c : ascii) (s : string) (sep : ascii) (part : string) :
  part ∈ Split s sep → occurs c part = true → occurs c s = true.
Proof.
  revert part. induction s as [|a s IH]; intros part.
  - by intros ->%list_elem_of_singleton.
  - destruct (decide (a = sep)) as [->|Hne].
    + rewrite Split_cons_sep. intros [->|Hin]%elem_of_cons Hocc; [done|].
      simpl. rewrite (IH part) by done. apply orb_true_r.
    + rewrite Split_cons_other by done.
      pose proof (Split_not_nil s sep) as Hnil.
      destruct (Split s sep) as [|p ps]; [done|]. simpl.
      intros [->|Hin]%elem_of_cons Hocc.
      * simpl in Hocc. apply orb_true_iff in Hocc as [->|Hocc]; [done|].
        rewrite (IH p); [apply orb_true_r|apply list_elem_of_here|done].
      * rewrite (IH part); [apply orb_true_r|by apply list_elem_of_further|done].
Qed.

(** The reference TrimSpace only removes bytes. *)
Lemma occurs_rev_app (c : ascii) (s acc : string) :
  occurs c (String.rev_app s acc) = occurs c s || occurs c acc.
Proof.
  revert acc. induction s as [|a s IH]; intros acc; [done|].
  simpl. rewrite IH. simpl. destruct (Ascii.eqb a c), (occurs c s); done.
Qed.

Lemma occurs_TrimLeft (c : ascii) (s : string) :
  occurs c (AsciiLib.TrimLeft s) = true → occurs c s = true.
Proof.
  induction s as [|a s IH]; [done|]. simpl.
  destruct (Ascii.is_space a); [|done].
  intros ->%IH. apply orb_true_r.
Qed.

Lemma occurs_TrimSpace (c : ascii) (s : string) :
  occurs c (AsciiLib.TrimSpace s) = true → occurs c s = true.
Proof.
  unfold AsciiLib.TrimSpace, String.rev. rewrite occurs_rev_app, orb_false_r.
  intros H%occurs_TrimLeft. rewrite occurs_rev_app, orb_false_r in H.
  by apply occurs_TrimLeft.
Qed.

Lemma substring_all (s : string) : String.substring 0 (String.length s) s = s.
Proof. induction s as [|c s IH]; [done|]. simpl. by rewrite IH. Qed.

Lemma HasPrefix_app (pre s : string) : HasPrefix (pre +:+ s) pre = true.
Proof.
  unfold HasPrefix. induction pre as [|c pre IH]; simpl.
  - by destruct s.
  - change (String c pre +:+ s) with (String c (pre +:+ s)).
    by destruct (ascii_dec c c).
Qed.

Lemma TrimPrefix_app (pre s : string) : TrimPrefix (pre +:+ s) pre = s.
Proof.
  unfold TrimPrefix. rewrite HasPrefix_app.
  induction pre as [|c pre IH]; simpl.
  - change (EmptyString +:+ s) with s. rewrite Nat.sub_0_r. apply substring_all.
  - change (String c pre +:+ s) with (String c (pre +:+ s)). simpl. apply IH.
Qed.

Lemma prefix_cons (a b : ascii) (p s : string) :
  String.prefix (String a p) (String b s) = Ascii.eqb a b && String.prefix p s.
Proof.
  change (String.prefix (String a p) (String b s))
    with (if ascii_dec a b then String.prefix p s else false).
  destruct (ascii_dec a b) as [->|Hne].
  - by rewrite Ascii.eqb_refl.
  - by apply Ascii.eqb_neq in Hne as ->.
Qed.

(** A string that has a prefix is the prefix followed by the rest. *)
Lemma HasPrefix_inv (d pre : string) :
  HasPrefix d pre = true → ∃ rest, d = pre +:+ rest.
Proof.
  unfold HasPrefix. revert d. induction pre as [|a pre IH]; intros d.
  - intros _. by exists d.
  - destruct d as [|b d]; [done|]. rewrite prefix_cons.
    intros [Hab Hpre]%andb_true_iff. apply Ascii.eqb_eq in Hab as ->.
    destruct (IH d Hpre) as [rest ->]. by exists rest.
Qed.

(** Two directives do not share a value: a string starts with at most one
    of the three prefixes, and the word required with none. *)
Lemma prefixes_exclusive (d : string) :
  (HasPrefix d "description=" = true → HasPrefix d "default=" = false) ∧
  (HasPrefix d "description=" = true → HasPrefix d "enum=" = false) ∧
  (HasPrefix d "default=" = true → HasPrefix d "enum=" = false) ∧
  (d = "required" →
   HasPrefix d "description=" = false ∧ HasPrefix d "default=" = false ∧
   HasPrefix d "enum=" = false).
Proof.
  split; [|split; [|split]].
  - by intros [rest ->]%HasPrefix_inv.
  - by intros [rest ->]%HasPrefix_inv.
  - by intros [rest ->]%HasPrefix_inv.
  - by intros ->.
Qed.

(** ** The jsonschema tag *)
Section directive_facts.
Context `{L : GoLib}.

(** What one part of the tag does to each field of the descriptor: it
    depends on the trimmed part only. *)
Lemma applyDirective_fields (info : FieldInfo.t) (part : string) :
  let d := TrimSpace part in
  FieldInfo.Required (applyDirective info part)
    = FieldInfo.Required info || bool_decide (d = "required") ∧
  FieldInfo.Description (applyDirective info part)
    = (if HasPrefix d "description=" then TrimPrefix d "description="
       else FieldInfo.Description info) ∧
  FieldInfo.HasDefault (applyDirective info part)
    = FieldInfo.HasDefault info || HasPrefix d "default=" ∧
  FieldInfo.Default (applyDirective info part)
    = (if HasPrefix d "default=" then TrimPrefix d "default="
       else FieldInfo.Default info) ∧
  FieldInfo.Enum (applyDirective info part)
    = (if HasPrefix d "enum=" then Split (TrimPrefix d "enum=") "|"%char
       else FieldInfo.Enum info).
Proof.
  intros d. unfold applyDirective. fold d.
  destruct (prefixes_exclusive d) as (Hdesc_def & Hdesc_enum & Hdef_enum & Hreq).
  destruct (decide (d = "required")) as [Hd|Hd].
  - destruct (Hreq Hd) as (-> & -> & ->). rewrite bool_decide_eq_true_2 by done.
    simpl. by rewrite orb_true_r, orb_false_r.
  - rewrite bool_decide_eq_false_2 by done. rewrite orb_false_r.
    destruct (HasPrefix d "description=") eqn:Hdesc.
    { rewrite Hdesc_def, Hdesc_enum by done. simpl. by rewrite orb_false_r. }
    destruct (HasPrefix d "default=") eqn:Hdef.
    { rewrite Hdef_enum by done. simpl. by rewrite orb_true_r. }
    rewrite orb_false_r. by destruct (HasPrefix d "enum=").
Qed.

Lemma lastDirective_snoc (pre : string) (ds : list string) (d : string) :
  lastDirective pre (ds ++ [d]) =
    if HasPrefix d pre then Some (TrimPrefix d pre) else lastDirective pre ds.
Proof.
  unfold lastDirective. rewrite filter_app.
  destruct (HasPrefix d pre) eqn:Hd.
  - rewrite (filter_cons_True _ d) by done. by rewrite filter_nil, last_snoc.
  - rewrite (filter_cons_False _ d) by (by rewrite Hd).
    by rewrite filter_nil, app_nil_r.
Qed.

(** The parts of a tag, one after the other. *)
Lemma foldl_applyDirective (info : FieldInfo.t) (parts : list string) :
  let ds := TrimSpace <$> parts in
  let info' := foldl applyDirective info parts in
  FieldInfo.Required info' = FieldInfo.Required info || bool_decide ("required" ∈ ds) ∧
  FieldInfo.Description info'
    = default (FieldInfo.Description info) (lastDirective "description=" ds) ∧
  FieldInfo.HasDefault info'
    = FieldInfo.HasDefault info || bool_decide (is_Some (lastDirective "default=" ds)) ∧
  FieldInfo.Default info'
    = default (FieldInfo.Default info) (lastDirective "default=" ds) ∧
  FieldInfo.Enum info'
    = default (FieldInfo.Enum info)
        ((λ v, Split v "|"%char) <$> lastDirective "enum=" ds).
Proof.
  induction parts as [|part parts IH] using rev_ind.
  - cbn zeta. rewrite fmap_nil.
    assert (∀ pre, lastDirective pre [] = None) as Hnone by done.
    rewrite !Hnone. simpl foldl. simpl default. simpl fmap.
    rewrite bool_decide_eq_false_2 by apply not_elem_of_nil.
    rewrite bool_decide_eq_false_2 by (by intros [? ?]).
    by rewrite !orb_false_r.
  - cbn zeta in *. destruct IH as (IHr & IHd & IHh & IHv & IHe).
    rewrite foldl_snoc, fmap_app, list_fmap_singleton, !lastDirective_snoc.
    destruct (applyDirective_fields (foldl applyDirective info parts) part)
      as (-> & -> & -> & -> & ->).
    rewrite IHr, IHd, IHh, IHv, IHe. repeat split.
    + rewrite <- orb_assoc. f_equal.
      destruct (decide (TrimSpace part = "required")) as [Hreq|Hreq].
      * rewrite (bool_decide_eq_true_2 (TrimSpace part = _)) by done.
        rewrite orb_true_r. symmetry. apply bool_decide_eq_true_2.
        apply elem_of_app. right. rewrite Hreq. apply list_elem_of_here.
      * rewrite (bool_decide_eq_false_2 (TrimSpace part = _)) by done.
        rewrite orb_false_r. apply bool_decide_ext.
        rewrite elem_of_app, list_elem_of_singleton.
        split; [by left|]. intros [?|Heq]; [done|by destruct Hreq].
    + by destruct (HasPrefix (TrimSpace part) "description=").
    + rewrite <- orb_assoc. f_equal.
      destruct (HasPrefix (TrimSpace part) "default="); [|by rewrite orb_false_r].
      rewrite orb_true_r. symmetry. by apply bool_decide_eq_true_2.
    + by destruct (HasPrefix (TrimSpace part) "default=").
    + by destruct (HasPrefix (TrimSpace part) "enum=").
Qed.
End directive_facts.

(** The tag is applied part by part, and its directives are the
    trimmed parts. *)
Lemma applySchemaTag_parts `{L : GoLib} (tag : string) (info : FieldInfo.t) :
  ∃ parts,
    applySchemaTag tag info = foldl applyDirective info parts ∧
    directives tag = TrimSpace <$> parts.
Proof.
  unfold directives, applySchemaTag.
  destruct (decide (getTagValue tag "jsonschema" = EmptyString)).
  - by exists [].
  - by eexists.
Qed.

(** The last directive of a kind is one of the directives. *)
Lemma lastDirective_Some `{L : GoLib} (pre : string) (ds : list string) (v : string) :
  lastDirective pre ds = Some v → pre +:+ v ∈ ds.
Proof.
  unfold lastDirective. intros (d & Hd & ->)%fmap_Some.
  apply last_Some_elem_of, list_elem_of_filter in Hd as [Hpre Hd].
  apply HasPrefix_inv in Hpre as [rest ->]. by rewrite TrimPrefix_app.
Qed.

(** X1 -- a value ends at the first comma. The jsonschema tag is split
    at its commas before its directives are read, so that, with a
    TrimSpace that only removes bytes, the description, the default and
    the enum values a tag gives never hold a comma: a description with a
    comma is cut there, and what follows is read as a further directive.
    The enum values hold no bar either. *)
Theorem applySchemaTag_no_comma `{L : GoLib} (tag : string) (info : FieldInfo.t) :
  (∀ c s, occurs c (TrimSpace s) = true → occurs c s = true) →
  let ds := directives tag in
  let info' := applySchemaTag tag info in
  (is_Some (lastDirective "description=" ds) →
   occurs "," (FieldInfo.Description info') = false) ∧
  (is_Some (lastDirective "default=" ds) →
   occurs "," (FieldInfo.Default info') = false) ∧
  (is_Some (lastDirective "enum=" ds) →
   Forall (λ v, occurs "," v = false ∧ occurs "|" v = false) (FieldInfo.Enum info')).
Proof.
  intros Htrim ds info'.
  assert (∀ pre v, lastDirective pre ds = Some v → occurs "," v = false) as Hvalue.
  { intros pre v Hd%lastDirective_Some. unfold ds, directives in Hd.
    destruct (decide _); [by apply elem_of_nil in Hd|].
    apply list_elem_of_fmap in Hd as (part & Heq & Hpart).
    apply Split_no_sep in Hpart.
    destruct (occurs "," v) eqn:Hv; [|done].
    rewrite <- Hpart. symmetry. apply Htrim. rewrite <- Heq, occurs_app, Hv.
    apply orb_true_r. }
  destruct (applySchemaTag_parts tag info) as (parts & Hfold & Hds).
  destruct (foldl_applyDirective info parts) as (_ & Hdesc & _ & Hdef & Henum).
  rewrite <- Hfold, <- Hds in Hdesc, Hdef, Henum.
  fold ds info' in Hdesc, Hdef, Henum.
  split; [|split].
  - intros [v Hv]. rewrite Hdesc, Hv. simpl. by apply (Hvalue _ _ Hv).
  - intros [v Hv]. rewrite Hdef, Hv. simpl. by apply (Hvalue _ _ Hv).
  - intros [v Hv]. rewrite Henum, Hv. simpl. apply Forall_forall. intros x Hx.
    split; [|by apply (Split_no_sep v)].
    destruct (occurs "," x) eqn:Hocc; [|done].
    rewrite <- (Hvalue _ _ Hv). symmetry. by apply (Split_occurs _ _ _ _ Hx).
Qed.

(** The theorem on the tag of the demo with commas: the description
    Hello, world is cut to Hello, and of the enum a|b, c the values a and
    b are left. *)
Lemma applySchemaTag_no_comma_witness :
  let info := applySchemaTag (L := AsciiLib.lib) Demo2.commaTag (FieldInfo.zero "Text") in
  FieldInfo.Description info = "Hello" ∧ FieldInfo.Enum info = ["a"; "b"] ∧
  occurs "," (FieldInfo.Description info) = false.
Proof.
  destruct (applySchemaTag_no_comma (L := AsciiLib.lib) Demo2.commaTag
              (FieldInfo.zero "Text") occurs_TrimSpace) as (Hdesc & _ & _).
  cbn zeta. split; [by vm_compute|]. split; [by vm_compute|].
  apply Hdesc. vm_compute. by eexists.
Defined.

(** X2 -- the directives of the jsonschema tag. Whatever descriptor the
    tag is applied to: the field is required when it already was or
    some directive is the word required; the description, the default
    and the enum are those of the last directive of their kind, the enum
    split at the bars, and are left as they were when the tag has no such
    directive; HasDefault is set by any default directive, also one with
    an empty value. A tag without jsonschema key has no directive. *)
Theorem applySchemaTag_directives `{L : GoLib} (tag : string) (info : FieldInfo.t) :
  let ds := directives tag in
  let info' := applySchemaTag tag info in
  FieldInfo.Required info' = FieldInfo.Required info || bool_decide ("required" ∈ ds) ∧
  FieldInfo.Description info'
    = default (FieldInfo.Description info) (lastDirective "description=" ds) ∧
  FieldInfo.HasDefault info'
    = FieldInfo.HasDefault info || bool_decide (is_Some (lastDirective "default=" ds)) ∧
  FieldInfo.Default info'
    = default (FieldInfo.Default info) (lastDirective "default=" ds) ∧
  FieldInfo.Enum info'
    = default (FieldInfo.Enum info)
        ((λ v, Split v "|"%char) <$> lastDirective "enum=" ds).
Proof.
  destruct (applySchemaTag_parts tag info) as (parts & -> & ->).
  apply foldl_applyDirective.
Qed.

(** The theorem on the tag of the demo that has every directive, two of
    them twice: required, the second description, the default and the two
    enum values. *)
Lemma applySchemaTag_directives_witness :
  let info := applySchemaTag (L := AsciiLib.lib) Demo2.fullTag (FieldInfo.zero "Mode") in
  FieldInfo.Required info = true ∧
  FieldInfo.Description info = "Mode of search" ∧
  FieldInfo.HasDefault info = true ∧
  FieldInfo.Default info = "a" ∧
  FieldInfo.Enum info = ["a"; "b"].
Proof.
  destruct (applySchemaTag_directives (L := AsciiLib.lib) Demo2.fullTag
              (FieldInfo.zero "Mode")) as (Hr & Hd & Hh & Hv & He).
  cbn zeta. rewrite Hr, Hd, Hh, Hv, He. by vm_compute.
Defined.

(** ** Where the enum of a descriptor comes from *)
Section enum_source.
Context `{L : GoLib} (U : types.Universe).

Lemma findEnumValues_not_string (named : types.TypeName) :
  types.Underlying U (types.Named named) ≠ types.Basic types.String →
  findEnumValues U named = [].
Proof.
  unfold findEnumValues.
  destruct (types.Underlying U (types.Named named)) as [[]| | | | | | | | |]; done.
Qed.

Lemma detectEnum_other_fields (fieldType : types.Type_) (info : FieldInfo.t) :
  FieldInfo.Required (detectEnum U fieldType info) = FieldInfo.Required info ∧
  FieldInfo.Description (detectEnum U fieldType info) = FieldInfo.Description info ∧
  FieldInfo.HasDefault (detectEnum U fieldType info) = FieldInfo.HasDefault info ∧
  FieldInfo.Default (detectEnum U fieldType info) = FieldInfo.Default info.
Proof.
  unfold detectEnum.
  destruct (decide _); [|done]. destruct fieldType; try done.
  by destruct (decide _).
Qed.

(** The enum detection, whatever the descriptor. *)
Lemma detectEnum_Enum (fuel : nat) (fieldType : types.Type_) (info : FieldInfo.t) :
  goTypeToJSONSchemaType U fuel fieldType = Some (FieldInfo.Type_ info) →
  FieldInfo.Enum (detectEnum U fieldType info) =
    if decide (FieldInfo.Enum info = []) then
      match fieldType with
      | types.Named named => findEnumValues U named
      | _ => []
      end
    else FieldInfo.Enum info.
Proof.
  intros Hty. destruct (decide (FieldInfo.Enum info = [])) as [Hnil|Hnil].
  - destruct (decide (FieldInfo.Type_ info = "string")) as [Hstr|Hstr].
    + destruct fieldType; try (unfold detectEnum; by destruct (decide _)).
      by apply detectEnum_named.
    + unfold detectEnum. rewrite decide_False by (by intros [_ ?]).
      destruct fieldType as [| | | | | | | | |named]; try done.
      rewrite findEnumValues_not_string; [done|]. intros Hu.
      destruct fuel as [|fuel]; [done|].
      pose proof (goTypeToJSONSchemaType_shapes U fuel (types.Named named)) as Hs.
      rewrite Hu in Hs. congruence.
  - unfold detectEnum. rewrite decide_False; [done|].
    intros [Hlen _]. by destruct (FieldInfo.Enum info).
Qed.
End enum_source.

(** X3 -- where the enum of a descriptor comes from. For a kept field
    whose type has a schema type: when the jsonschema tag has an enum
    directive, the enum is the value of the last one split at the bars,
    which is never the empty list, and the constants of the program are
    not consulted; when it has none, the enum is what findEnumValues
    finds for the type of the field if that type is itself a named type,
    and empty for every other type, a pointer to a named type
    included. *)
Theorem extractFieldInfo_enum_source `{L : GoLib} (U : types.Universe) (fuel : nat)
    (field : types.Var) (tag ty : string) :
  kept field tag →
  goTypeToJSONSchemaType U fuel (types.Var_Type field) = Some ty →
  ∃ info,
    extractFieldInfo U fuel field tag = Some (Some info) ∧
    FieldInfo.Enum info =
      match lastDirective "enum=" (directives tag) with
      | Some v => Split v "|"%char
      | None =>
          match types.Var_Type field with
          | types.Named named => findEnumValues U named
          | _ => []
          end
      end ∧
    (is_Some (lastDirective "enum=" (directives tag)) → FieldInfo.Enum info ≠ []).
Proof.
  intros Hk Hty. rewrite extractFieldInfo_eq, decide_True, Hty by done. simpl.
  eexists. split; [done|].
  rewrite (detectEnum_Enum U fuel) by done. simpl.
  destruct (applySchemaTag_parts tag
              (FieldInfo.set_JSONName (wireName field tag)
                 (FieldInfo.zero (types.Var_Name field)))) as (parts & -> & ->).
  destruct (foldl_applyDirective
              (FieldInfo.set_JSONName (wireName field tag)
                 (FieldInfo.zero (types.Var_Name field))) parts)
    as (_ & _ & _ & _ & ->).
  simpl.
  destruct (lastDirective "enum=" (TrimSpace <$> parts)) as [v|]; simpl.
  - rewrite decide_False by apply Split_not_nil.
    split; [done|]. intros _. apply Split_not_nil.
  - split; [done|]. by intros [? ?].
Qed.

(** The theorem on three fields of the demo: a field of type Priority
    tagged with the enum a, b keeps that enum; one tagged with an enum
    directive without value gets the enum of the empty string; and a
    field whose type is a pointer to a pointer to Priority has the schema
    type string and no enum. *)
Lemma extractFieldInfo_enum_source_witness :
  (∃ info,
     extractFieldInfo (L := AsciiLib.lib) Demo.U 1 Demo.prioField Demo2.fullTag
       = Some (Some info) ∧ FieldInfo.Enum info = ["a"; "b"]) ∧
  (∃ info,
     extractFieldInfo (L := AsciiLib.lib) Demo.U 1 Demo.prioField Demo2.emptyEnumTag
       = Some (Some info) ∧ FieldInfo.Enum info = [EmptyString]) ∧
  (∃ info,
     extractFieldInfo (L := AsciiLib.lib) Demo.U 3
       (types.NewField "Prio" Demo2.deepPriority) EmptyString
       = Some (Some info) ∧
     FieldInfo.Type_ info = "string" ∧ FieldInfo.Enum info = []).
Proof.
  split; [|split].
  - destruct (extractFieldInfo_enum_source (L := AsciiLib.lib) Demo.U 1 Demo.prioField
                Demo2.fullTag "string") as (info & Hinfo & Henum & _).
    + split; [reflexivity|by vm_compute].
    + reflexivity.
    + exists info. split; [exact Hinfo|]. rewrite Henum. by vm_compute.
  - destruct (extractFieldInfo_enum_source (L := AsciiLib.lib) Demo.U 1 Demo.prioField
                Demo2.emptyEnumTag "string") as (info & Hinfo & Henum & _).
    + split; [reflexivity|by vm_compute].
    + reflexivity.
    + exists info. split; [exact Hinfo|]. rewrite Henum. by vm_compute.
  - destruct (extractFieldInfo_enum_source (L := AsciiLib.lib) Demo.U 3
                (types.NewField "Prio" Demo2.deepPriority) EmptyString "string")
      as (info & Hinfo & Henum & _).
    + split; [reflexivity|by vm_compute].
    + reflexivity.
    + exists info. split; [exact Hinfo|]. split; [|rewrite Henum; by vm_compute].
      apply extractFieldInfo_Some in Hinfo as (_ & _ & _ & Hty).
      assert (goTypeToJSONSchemaType Demo.U 3
                (types.Var_Type (types.NewField "Prio" Demo2.deepPriority))
              = Some "string") as Hstring by by vm_compute.
      rewrite Hstring in Hty. by injection Hty.
Defined.

(** X4 -- what findEnumValues returns. For a named type whose underlying
    type is not string it returns nothing. What it returns never has
    exactly one value, is sorted byte-wise, and holds only values of
    constants of the package of the type whose type is that named type:
    constants of type string or of another named type never contribute. *)
Theorem findEnumValues_result (U : types.Universe) (named : types.TypeName) :
  (types.Underlying U (types.Named named) ≠ types.Basic types.String →
   findEnumValues U named = []) ∧
  length (findEnumValues U named) ≠ 1 ∧
  Sorted String.le (findEnumValues U named) ∧
  (∀ v, v ∈ findEnumValues U named →
        ∃ name typ,
          types.scopeOf U (types.Pkg named) !! name
            = Some (types.Const typ (constant.String v)) ∧
          types.Identical typ named = true).
Proof.
  split; [apply findEnumValues_not_string|].
  assert (types.Underlying U (types.Named named) = types.Basic types.String ∨
          types.Underlying U (types.Named named) ≠ types.Basic types.String)
    as [Hu|Hu].
  { destruct (types.Underlying U (types.Named named)) as [[]| | | | | | | | |];
      (by left) || by right. }
  2:{ rewrite findEnumValues_not_string by done.
      split; [done|]. split; [constructor|]. intros v Hv. by apply elem_of_nil in Hv. }
  rewrite findEnumValues_string by done.
  destruct (decide (2 ≤ length (constValues U named))) as [Hlen|Hlen].
  2:{ split; [done|]. split; [constructor|]. intros v Hv. by apply elem_of_nil in Hv. }
  split; [rewrite sort_Strings_length; lia|].
  split; [apply sort_Strings_Sorted|].
  intros v Hv. rewrite sort_Strings_Permutation, constValues_matching in Hv.
  unfold matchingConstValues in Hv.
  apply list_elem_of_omap in Hv as ([name obj] & Hin & Hval).
  apply elem_of_map_to_list in Hin. simpl in Hval.
  destruct obj as [|typ val| |]; try done.
  destruct (types.Identical typ named) eqn:Hid; [|done].
  destruct val; try done. simpl in Hval. injection Hval as ->.
  by exists name, typ.
Qed.

(** The theorem on the demo program: Search, a struct, has no enum
    values; Priority has three, of which medium is the value of the
    constant PriorityMedium; the constant Version, of type string, is not
    among them. *)
Lemma findEnumValues_result_witness :
  findEnumValues Demo.U Demo.Search = [] ∧
  findEnumValues Demo.U Demo.Priority = ["high"; "low"; "medium"] ∧
  (∃ name typ,
     Demo.scope !! name = Some (types.Const typ (constant.String "medium")) ∧
     types.Identical typ Demo.Priority = true).
Proof.
  destruct (findEnumValues_result Demo.U Demo.Search) as (Hnot & _).
  destruct (findEnumValues_result Demo.U Demo.Priority) as (_ & _ & _ & Hconst).
  split; [|split].
  - apply Hnot. by vm_compute.
  - by vm_compute.
  - apply (Hconst "medium").
    assert (findEnumValues Demo.U Demo.Priority = ["high"; "low"; "medium"]) as ->
      by by vm_compute.
    do 2 apply list_elem_of_further. apply list_elem_of_here.
Defined.

(** ** goTypeToJSONSchemaType: pointers, range, the shapes without a case *)

(** X5 -- pointers are unwrapped to the end. When [n] pointers lead
    from a type to a type whose underlying type is not a pointer, the Go
    function returns after [n] calls of itself: any fuel above [n] gives
    an answer, the schema type of the type the pointers lead to. *)
Theorem goTypeToJSONSchemaType_through_pointers (U : types.Universe) (n fuel : nat)
    (t t' : types.Type_) :
  Unwraps U n t t' →
  (∀ elem, types.Underlying U t' ≠ types.Pointer elem) →
  n < fuel →
  ∃ r, goTypeToJSONSchemaType U fuel t = Some r ∧
       goTypeToJSONSchemaType U 1 t' = Some r.
Proof.
  intros Hun Hend Hfuel.
  assert (∃ r, goTypeToJSONSchemaType U 1 t' = Some r) as [r Hr].
  { pose proof (goTypeToJSONSchemaType_shapes U 0 t') as Hs.
    destruct (types.Underlying U t') as [[]| | | | elem| | | | |] eqn:Hu;
      try (by eexists). by destruct (Hend elem). }
  exists r. split; [|done].
  replace fuel with (n + (fuel - n)) by lia.
  rewrite (goTypeToJSONSchemaType_unwraps U n (fuel - n) t t' Hun).
  apply (goTypeToJSONSchemaType_mono U 1); [done|lia].
Qed.

(** The theorem on the type of the demo that is a pointer to a pointer
    to Priority: two pointers, then a named type whose underlying type is
    string. *)
Lemma goTypeToJSONSchemaType_through_pointers_witness :
  goTypeToJSONSchemaType Demo.U 3 Demo2.deepPriority = Some "string".
Proof.
  destruct (goTypeToJSONSchemaType_through_pointers Demo.U 2 3 Demo2.deepPriority
              (types.Named Demo.Priority)) as (r & -> & Hr).
  - eapply Unwraps_elem; [reflexivity|].
    eapply Unwraps_elem; [reflexivity|]. apply Unwraps_here.
  - intros elem. by vm_compute.
  - lia.
  - rewrite <- Hr. by vm_compute.
Defined.

(** X6 -- the range of goTypeToJSONSchemaType. An answer is one of the
    six type names boolean, integer, number, string, array and object;
    the function never answers null or an empty name. *)
Theorem goTypeToJSONSchemaType_range (U : types.Universe) (fuel : nat)
    (t : types.Type_) (r : string) :
  goTypeToJSONSchemaType U fuel t = Some r → r ∈ schemaTypes.
Proof.
  revert t. induction fuel as [|fuel IH]; intros t; [done|]. simpl.
  destruct (types.Underlying U t) as [[]| | | | elem| | | | |];
    try (intros [= <-]; unfold schemaTypes;
         repeat (apply list_elem_of_here || apply list_elem_of_further)).
  apply IH.
Qed.

Lemma goTypeToJSONSchemaType_range_witness :
  "string" ∈ schemaTypes.
Proof.
  apply (goTypeToJSONSchemaType_range Demo.U 3 Demo2.deepPriority). by vm_compute.
Defined.

(** X7 -- the shapes without a case. Arrays of a fixed length,
    channels, functions, interfaces, complex numbers, uintptr, unsafe
    pointers and the untyped kinds have no case in the function: each of
    them gets object, directly or behind any number of pointers, and also
    as the underlying type of a named type. *)
Theorem goTypeToJSONSchemaType_unrecognized (U : types.Universe) (n fuel : nat)
    (t t' : types.Type_) :
  Unwraps U n t t' →
  unrecognized (types.Underlying U t') →
  n < fuel →
  goTypeToJSONSchemaType U fuel t = Some "object".
Proof.
  intros Hun Hshape Hfuel.
  replace fuel with (n + S (fuel - n - 1)) by lia.
  rewrite (goTypeToJSONSchemaType_unwraps U n _ t t' Hun). simpl.
  destruct (types.Underlying U t') as [[]| | | | | | | | |]; done.
Qed.

(** The theorem on a pointer to an array of three ints. *)
Lemma goTypeToJSONSchemaType_unrecognized_witness :
  goTypeToJSONSchemaType Demo.U 2 (types.Pointer Demo2.triple) = Some "object".
Proof.
  apply (goTypeToJSONSchemaType_unrecognized Demo.U 1 2 _ Demo2.triple).
  - eapply Unwraps_elem; [reflexivity|]. apply Unwraps_here.
  - exact I.
  - lia.
Defined.

(** X8 -- a pointer type that is its own element. For a kept field
    whose type is declared as a pointer to itself, extractFieldInfo has
    no answer whatever the fuel: the Go function calls itself without
    end. The field is harmless when it is unexported or omitted by its
    json tag, for then its type is never looked at. *)
Theorem extractFieldInfo_pointer_cycle `{L : GoLib} (U : types.Universe)
    (field : types.Var) (tag : string) :
  types.Underlying U (types.Var_Type field) = types.Pointer (types.Var_Type field) →
  ∀ fuel,
    extractFieldInfo U fuel field tag =
      if decide (kept field tag) then None else Some None.
Proof.
  intros Hcycle fuel. rewrite extractFieldInfo_eq.
  destruct (decide (kept field tag)); [|done].
  by rewrite (goTypeToJSONSchemaType_cycle U fuel _ Hcycle).
Qed.

(** The theorem on the type Self of the demo, declared as a pointer to
    Self: no answer for an exported field, nil for an unexported one. *)
Lemma extractFieldInfo_pointer_cycle_witness :
  (∀ fuel,
     extractFieldInfo (L := AsciiLib.lib) Demo.U fuel
       (types.NewField "Next" (types.Named Demo.Self)) EmptyString = None) ∧
  (∀ fuel,
     extractFieldInfo (L := AsciiLib.lib) Demo.U fuel
       (types.NewField "next" (types.Named Demo.Self)) EmptyString = Some None).
Proof.
  split; intros fuel.
  - rewrite (extractFieldInfo_pointer_cycle (L := AsciiLib.lib) Demo.U) by reflexivity.
    apply decide_True. split; [reflexivity|by vm_compute].
  - rewrite (extractFieldInfo_pointer_cycle (L := AsciiLib.lib) Demo.U) by reflexivity.
    apply decide_False. intros [Hexported _]. by vm_compute in Hexported.
Defined.

(** ** generate and Run, once more *)
Section generate_more.
Context `{L : GoLib} (U : types.Universe) (outputFile : string).

(** The first loop of generate on a typeMap that holds the descriptors
    [infos] for the names: some field of some descriptor has a default. *)
Lemma hasDefaults_infos (m : gmap string TypeInfo.t) (names : list string)
    (infos : list TypeInfo.t) :
  (λ name, m !! name) <$> names = Some <$> infos →
  hasDefaults m names =
    Some (existsb (λ info, existsb FieldInfo.HasDefault (TypeInfo.Fields info)) infos).
Proof.
  revert infos. induction names as [|name names IH]; intros [|info infos]; try done.
  rewrite !fmap_cons. intros [= Hname Hnames]. simpl. rewrite Hname.
  destruct (existsb FieldInfo.HasDefault (TypeInfo.Fields info)); [done|].
  by apply IH.
Qed.

(** The descriptors a typeMap holds for a list of names, when it holds
    one for each. *)
Lemma lookups_infos (m : gmap string TypeInfo.t) (names : list string)
    (P : string → TypeInfo.t → Prop) :
  (∀ name, name ∈ names → ∃ info, P name info ∧ m !! name = Some info) →
  ∃ infos, Forall2 P names infos ∧ (λ name, m !! name) <$> names = Some <$> infos.
Proof.
  induction names as [|name names IH]; intros Hall.
  - by exists [].
  - destruct (Hall name) as (info & HP & Hname); [apply list_elem_of_here|].
    destruct IH as (infos & HF & Hnames).
    { intros n Hn. by apply Hall, list_elem_of_further. }
    exists (info :: infos). split; [by constructor|].
    by rewrite !fmap_cons, Hname, Hnames.
Qed.

(** The typeMap that Run fills from a typeMap [m]: each requested name
    bound to the descriptor findType extracts for it, the other names as
    in [m]. *)
Lemma findTypes_lookup (fuel : nat) (pkg : Package) (names : list string)
    (m m' : gmap string TypeInfo.t) :
  findTypes U fuel pkg names m = Ok m' →
  (∀ name, name ∈ names →
     ∃ info, findType U fuel (Package_Path pkg) (Package_Name pkg) name = Ok info ∧
             m' !! name = Some info) ∧
  (∀ name, name ∉ names → m' !! name = m !! name).
Proof.
  revert m. induction names as [|typeName names IH]; intros m; simpl.
  - intros [= <-]. split; [|done]. intros name Hin. by apply elem_of_nil in Hin.
  - destruct (findType U fuel (Package_Path pkg) (Package_Name pkg) typeName)
      as [info| | |] eqn:Hfind; try done.
    intros Hrest. destruct (IH _ Hrest) as [Hin Hout]. split.
    + intros name Hname.
      destruct (decide (name ∈ names)) as [Hnames|Hnames]; [by apply Hin|].
      apply elem_of_cons in Hname as [->|Hname]; [|done].
      exists info. split; [done|]. by rewrite Hout, lookup_insert_eq.
    + intros name Hname. apply not_elem_of_cons in Hname as [Hne Hname].
      by rewrite Hout, lookup_insert_ne.
Qed.

Lemma findTypes_first_failure (fuel : nat) (pkg : Package)
    (found : list string) (bad : string) (rest : list string) (err : GenError)
    (m : gmap string TypeInfo.t) :
  Forall (λ name, ∃ info,
            findType U fuel (Package_Path pkg) (Package_Name pkg) name = Ok info)
         found →
  findType U fuel (Package_Path pkg) (Package_Name pkg) bad = Fail err →
  findTypes U fuel pkg (found ++ bad :: rest) m = Fail (FindingType bad err).
Proof.
  intros Hfound Hbad. revert m.
  induction Hfound as [|name found [info Hname] _ IH]; intros m; simpl.
  - by rewrite Hbad.
  - rewrite Hname. apply IH.
Qed.
End generate_more.

(** X10 -- the typeMap of Run. When the loop of Run over the requested
    names ends without error, the typeMap holds, for each requested name,
    the descriptor findType extracts for it, and holds no other name; a
    name requested twice has one entry. *)
Theorem findTypes_typeMap `{L : GoLib} (U : types.Universe) (fuel : nat)
    (pkg : Package) (names : list string) (typeMap : gmap string TypeInfo.t) :
  findTypes U fuel pkg names ∅ = Ok typeMap →
  (∀ name, name ∈ names →
     ∃ info, findType U fuel (Package_Path pkg) (Package_Name pkg) name = Ok info ∧
             typeMap !! name = Some info) ∧
  (∀ name, name ∉ names → typeMap !! name = None) ∧
  dom typeMap = list_to_set names.
Proof.
  intros Hm. destruct (findTypes_lookup U fuel pkg names ∅ typeMap Hm) as [Hin Hout].
  split; [done|]. split.
  - intros name Hname. by rewrite Hout, lookup_empty.
  - apply set_eq. intros name. rewrite elem_of_dom, elem_of_list_to_set.
    destruct (decide (name ∈ names)) as [Hname|Hname].
    + destruct (Hin name Hname) as (info & _ & ->). by split; [|eauto].
    + rewrite Hout, lookup_empty by done. split; [by intros [? ?]|done].
Qed.

(** The theorem on the demo program, Search requested twice: the typeMap
    has the one name Search. *)
Lemma findTypes_typeMap_witness :
  ∃ typeMap,
    findTypes (L := AsciiLib.lib) Demo.U 2 (NewPackage "demo" "demo" 0)
      ["Search"; "Search"] ∅ = Ok typeMap ∧
    dom typeMap = {["Search"]} ∧
    typeMap !! "Priority" = None.
Proof.
  destruct (findTypes (L := AsciiLib.lib) Demo.U 2 (NewPackage "demo" "demo" 0)
              ["Search"; "Search"] ∅) as [typeMap| | |] eqn:Hm;
    try (by vm_compute in Hm).
  exists typeMap. split; [done|].
  destruct (findTypes_typeMap (L := AsciiLib.lib) Demo.U 2 _ _ typeMap Hm)
    as (_ & Hout & Hdom).
  split.
  - rewrite Hdom. by vm_compute.
  - apply Hout. intros Hin.
    repeat (apply elem_of_cons in Hin as [Hin|Hin]; [done|]).
    by apply elem_of_nil in Hin.
Defined.

(** X11 -- the first type that cannot be found ends the run. When
    findType succeeds on the names before a name and fails on that name,
    Run returns the error of findType for that name, whatever names
    follow, and writes nothing. *)
Theorem Run_first_failure `{L : GoLib} (U : types.Universe) (outputFile : string)
    (fuel : nat) (dir : string) (pkg : Package) (pkgs : list Package)
    (found : list string) (bad : string) (rest : list string) (err : GenError) :
  Package_Errors pkg = 0 →
  Forall (λ name, ∃ info,
            findType U fuel (Package_Path pkg) (Package_Name pkg) name = Ok info)
         found →
  findType U fuel (Package_Path pkg) (Package_Name pkg) bad = Fail err →
  Run U outputFile fuel dir (found ++ bad :: rest) (Some (pkg :: pkgs))
    = Fail (FindingType bad err).
Proof.
  intros Herr Hfound Hbad. unfold Run. rewrite Herr. simpl.
  by rewrite (findTypes_first_failure U fuel pkg found bad rest err ∅ Hfound Hbad).
Qed.

(** The theorem on the demo program: Priority is a type, not a struct;
    requested after Search and before a name that does not exist, it is
    the one reported. *)
Lemma Run_first_failure_witness :
  Run (L := AsciiLib.lib) Demo.U EmptyString 2 "." ["Search"; "Priority"; "Missing"]
    (Some [NewPackage "demo" "demo" 0])
  = Fail (FindingType "Priority" (NotAStructType "Priority")).
Proof.
  apply (Run_first_failure (L := AsciiLib.lib) Demo.U EmptyString 2 "."
           (NewPackage "demo" "demo" 0) [] ["Search"] "Priority" ["Missing"]).
  - reflexivity.
  - constructor; [|constructor]. eexists. by vm_compute.
  - by vm_compute.
Defined.

(** X12 -- what Run writes. When Run writes, findType has extracted a
    descriptor for each requested name, and the bytes written are the
    template executed on these descriptors, in the order of the request
    and as many times as requested, with the import of encoding/json
    exactly when some field of some descriptor has a default; the bytes
    go through format.Source, and are written as the template produced
    them, with a warning, when it fails. *)
Theorem Run_output `{L : GoLib} (U : types.Universe) (outputFile : string)
    (fuel : nat) (dir : string) (names : list string) (pkg : Package)
    (pkgs : list Package) (w : Written) :
  Run U outputFile fuel dir names (Some (pkg :: pkgs)) = Ok w →
  ∃ infos buf,
    Forall2 (λ name info,
               findType U fuel (Package_Path pkg) (Package_Name pkg) name = Ok info)
            names infos ∧
    tmpl_Execute (Package_Name pkg) (Some <$> infos)
      (existsb (λ info, existsb FieldInfo.HasDefault (TypeInfo.Fields info)) infos)
      = Some buf ∧
    content w = default buf (format_Source buf) ∧
    warned w = bool_decide (format_Source buf = None).
Proof.
  unfold Run. destruct (decide (0 < Package_Errors pkg)); [done|].
  destruct (findTypes U fuel pkg names ∅) as [m| | |] eqn:Hm; try done.
  destruct (findTypes_lookup U fuel pkg names ∅ m Hm) as [Hin _].
  destruct (lookups_infos m names
              (λ name info,
                 findType U fuel (Package_Path pkg) (Package_Name pkg) name = Ok info)
              Hin) as (infos & Hinfos & Htyps).
  unfold generate. simpl.
  rewrite (hasDefaults_infos m names infos Htyps), Htyps.
  destruct (tmpl_Execute _ _ _) as [buf|] eqn:Hbuf; [|done].
  intros Hw. exists infos, buf. split; [done|]. split; [done|].
  by destruct (format_Source buf); injection Hw as <-.
Qed.

(** The theorem on the demo program, with the library that has no
    formatter: Run writes, with a warning, what the template gives for
    the descriptor of Search. *)
Lemma Run_output_witness :
  ∃ w info buf,
    Run (L := AsciiLib.lib) Demo.U EmptyString 2 "." ["Search"]
      (Some [NewPackage "demo" "demo" 0]) = Ok w ∧
    findType (L := AsciiLib.lib) Demo.U 2 "demo" "demo" "Search" = Ok info ∧
    tmpl_Execute (L := AsciiLib.lib) "demo" [Some info] true = Some buf ∧
    content w = buf ∧ warned w = true.
Proof.
  destruct (Run (L := AsciiLib.lib) Demo.U EmptyString 2 "." ["Search"]
              (Some [NewPackage "demo" "demo" 0])) as [w| | |] eqn:HRun;
    try (by vm_compute in HRun).
  destruct (Run_output (L := AsciiLib.lib) Demo.U EmptyString 2 "." ["Search"] _ _ w
              HRun) as (infos & buf & Hinfos & Hbuf & Hcontent & Hwarned).
  apply Forall2_cons_inv_l in Hinfos as (info & infos' & Hinfo & Hnil & ->).
  apply Forall2_nil_inv_l in Hnil as ->.
  exists w, info, buf. split; [done|]. split; [exact Hinfo|].
  assert (existsb (λ info, existsb FieldInfo.HasDefault (TypeInfo.Fields info)) [info]
          = true) as Hdefaults.
  { simpl in Hinfo. vm_compute in Hinfo. injection Hinfo as <-. reflexivity. }
  rewrite Hdefaults in Hbuf. split; [exact Hbuf|].
  split; [by rewrite Hcontent|by rewrite Hwarned].
Defined.

(** generate writes only when the typeMap holds every requested name. *)
Lemma generate_Ok_present `{L : GoLib} (outputFile : string) (g : Generator.t)
    (w : Written) :
  generate outputFile g = Ok w →
  ∀ name, name ∈ Generator.types g → is_Some (Generator.typeMap g !! name).
Proof.
  intros Hw name Hname. unfold generate in Hw.
  destruct (hasDefaults _ _) as [hd|]; [|done].
  destruct (tmpl_Execute _ _ _) as [buf|] eqn:Hbuf; [|done].
  assert (is_Some (tmpl_Execute (Generator.pkgName g)
            ((λ name, Generator.typeMap g !! name) <$> Generator.types g) hd))
    as Hsome by by rewrite Hbuf.
  apply tmpl_Execute_is_Some in Hsome.
  rewrite Forall_fmap, Forall_forall in Hsome. by apply Hsome.
Qed.

(** X13 -- generate and a typeMap with a missing type. generate writes
    exactly when the typeMap holds every requested name; a formatting
    failure never prevents the write. A missing name ends generate
    without output in one of two ways: a panic, when no requested type
    before it has a field with a default -- the loop that looks for
    defaults reads the fields of the nil descriptor; a template error,
    when an earlier requested type has one -- that loop has stopped, and
    the template meets the nil descriptor. *)
Theorem generate_missing_type `{L : GoLib} (outputFile : string) (g : Generator.t) :
  ((∃ w, generate outputFile g = Ok w) ↔
   ∀ name, name ∈ Generator.types g → is_Some (Generator.typeMap g !! name)) ∧
  (∀ before name after,
     Generator.types g = before ++ name :: after →
     Generator.typeMap g !! name = None →
     Forall (λ n, ∃ info, Generator.typeMap g !! n = Some info ∧
                   existsb FieldInfo.HasDefault (TypeInfo.Fields info) = false)
            before →
     generate outputFile g = Panic) ∧
  (∀ before name info after missing,
     Generator.types g = before ++ name :: after →
     Forall (λ n, ∃ info, Generator.typeMap g !! n = Some info ∧
                   existsb FieldInfo.HasDefault (TypeInfo.Fields info) = false)
            before →
     Generator.typeMap g !! name = Some info →
     existsb FieldInfo.HasDefault (TypeInfo.Fields info) = true →
     missing ∈ after →
     Generator.typeMap g !! missing = None →
     generate outputFile g = Fail ExecutingTemplate).
Proof.
  assert (∀ m before rest,
            Forall (λ n, ∃ info, m !! n = Some info ∧
                      existsb FieldInfo.HasDefault (TypeInfo.Fields info) = false)
                   before →
            hasDefaults m (before ++ rest) = hasDefaults m rest) as Hskip.
  { intros m before rest Hbefore.
    induction Hbefore as [|n before (info & Hn & Hnone) _ IH]; [done|].
    simpl. by rewrite Hn, Hnone. }
  split; [|split].
  - split; [|apply generate_writes].
    intros [w Hw]. by apply (generate_Ok_present outputFile g w).
  - intros before name after Htypes Hname Hbefore. unfold generate.
    rewrite Htypes, (Hskip _ _ _ Hbefore). simpl. by rewrite Hname.
  - intros before name info after missing Htypes Hbefore Hname Hdefault Hin Hmissing.
    unfold generate. rewrite Htypes, (Hskip _ _ _ Hbefore). simpl.
    rewrite Hname, Hdefault.
    destruct (tmpl_Execute _ _ _) as [buf|] eqn:Hbuf; [|done].
    assert (is_Some (tmpl_Execute (Generator.pkgName g)
              ((λ name, Generator.typeMap g !! name) <$> before ++ name :: after) true))
      as Hsome by by rewrite Hbuf.
    apply tmpl_Execute_is_Some in Hsome.
    rewrite Forall_fmap, Forall_forall in Hsome.
    destruct (Hsome missing) as [? Hhas].
    + apply elem_of_app. right. by apply list_elem_of_further.
    + simpl in Hhas. congruence.
Qed.

(** The theorem on three generators of the demo: the typeMap has Search;
    with Search requested, generate writes; with a missing type requested
    first, it panics; with the missing type requested after a type that
    has a default, the template fails. *)
Lemma generate_missing_type_witness :
  let withDefault :=
    TypeInfo.New "Limits"
      [FieldInfo.New "Limit" "limit" "integer" EmptyString false true "10" []] in
  let typeMap : gmap string TypeInfo.t :=
    <["Limits" := withDefault]> {["Search" := Demo.searchInfo]} in
  (∃ w, generate (L := AsciiLib.lib) EmptyString
          (Generator.New "." ["Search"; "Limits"] "demo" "demo" typeMap) = Ok w) ∧
  generate (L := AsciiLib.lib) EmptyString
    (Generator.New "." ["Search"; "Missing"; "Limits"] "demo" "demo" typeMap) = Panic ∧
  generate (L := AsciiLib.lib) EmptyString
    (Generator.New "." ["Search"; "Limits"; "Missing"] "demo" "demo" typeMap)
    = Fail ExecutingTemplate.
Proof.
  intros withDefault typeMap. split; [|split].
  - destruct (generate_missing_type (L := AsciiLib.lib) EmptyString
                (Generator.New "." ["Search"; "Limits"] "demo" "demo" typeMap))
      as ([_ Hwrites] & _).
    apply Hwrites. intros name Hname. simpl in Hname.
    apply elem_of_cons in Hname as [->|Hname]; [by vm_compute; eauto|].
    apply list_elem_of_singleton in Hname as ->. by vm_compute; eauto.
  - destruct (generate_missing_type (L := AsciiLib.lib) EmptyString
                (Generator.New "." ["Search"; "Missing"; "Limits"] "demo" "demo" typeMap))
      as (_ & Hpanic & _).
    apply (Hpanic ["Search"] "Missing" ["Limits"]); [reflexivity|by vm_compute|].
    constructor; [|constructor]. exists Demo.searchInfo. split; by vm_compute.
  - destruct (generate_missing_type (L := AsciiLib.lib) EmptyString
                (Generator.New "." ["Search"; "Limits"; "Missing"] "demo" "demo" typeMap))
      as (_ & _ & Hfail).
    apply (Hfail ["Search"] "Limits" withDefault ["Missing"] "Missing");
      [reflexivity| |by vm_compute|reflexivity|apply list_elem_of_here|by vm_compute].
    constructor; [|constructor]. exists Demo.searchInfo. split; by vm_compute.
Defined.



(** ** The enum line of the template *)

(** X15 -- the values of an enum are written quoted and joined by a
    comma and a space: the index test of the template puts the separator
    before every value but the first, so that the list has neither a
    leading nor a trailing separator. *)
Theorem tmpl_enum_joined `{L : GoLib} (enum : list string) :
  tmpl_enum enum = String.concat ", " (quote <$> enum).
Proof.
  assert (∀ (es : list string) (q : string),
            q +:+ concat_str ((λ e, ", " +:+ quote e) <$> es)
            = String.concat ", " (q :: (quote <$> es))) as Hjoin.
  { induction es as [|e es IH]; intros q.
    - simpl. apply append_nil_r.
    - rewrite !fmap_cons, concat_str_cons, append_assoc, IH. done. }
  destruct enum as [|e es]; [done|].
  unfold tmpl_enum. rewrite imap_cons, concat_str_cons.
  rewrite (imap_ext _ (const (λ e, ", " +:+ quote e)) es) by done.
  rewrite imap_const. simpl. apply Hjoin.
Qed.

(** ** findASTType *)

Lemma findInSpecs_Some (specs : list ast.Spec) (name : string)
    (typeSpec : ast.TypeSpec) :
  findInSpecs specs name = Some typeSpec →
  ast.Name typeSpec = name ∧ ast.TypeSpecOf typeSpec ∈ specs.
Proof.
  induction specs as [|spec specs IH]; [done|]. simpl.
  destruct spec as [| |ts]; try (intros [? ?]%IH; split; [done|];
                                  by apply list_elem_of_further).
  destruct (decide (ast.Name ts = name)) as [Hname|Hname].
  - intros [= ->]. split; [done|]. apply list_elem_of_here.
  - intros [? ?]%IH. split; [done|]. by apply list_elem_of_further.
Qed.

Lemma findInSpecs_None (specs : list ast.Spec) (name : string) :
  findInSpecs specs name = None ↔
  ∀ typeSpec, ast.TypeSpecOf typeSpec ∈ specs → ast.Name typeSpec ≠ name.
Proof.
  induction specs as [|spec specs IH]; simpl.
  - split; [|done]. intros _ ts Hts. by apply elem_of_nil in Hts.
  - assert (∀ ts, ast.TypeSpecOf ts ∈ spec :: specs ↔
                  spec = ast.TypeSpecOf ts ∨ ast.TypeSpecOf ts ∈ specs) as Hcons.
    { intros ts. rewrite elem_of_cons. split; intros [?|?]; auto. }
    destruct spec as [| |ts]; try (rewrite IH; split; intros Hall ts' Hts';
      [apply Hcons in Hts' as [?|?]; [done|by apply Hall]
      |by apply Hall, list_elem_of_further]).
    destruct (decide (ast.Name ts = name)) as [Hname|Hname].
    + split; [done|]. intros Hall. destruct (Hall ts); [apply list_elem_of_here|done].
    + rewrite IH. split; intros Hall ts' Hts'.
      * apply Hcons in Hts' as [[= <-]|?]; [done|by apply Hall].
      * by apply Hall, list_elem_of_further.
Qed.

(** [name] is declared as a type in [file]. *)
Lemma findInDecls_Some (decls : list ast.Decl) (name : string)
    (typeSpec : ast.TypeSpec) :
  findInDecls decls name = Some typeSpec →
  ast.Name typeSpec = name ∧
  ∃ specs, ast.GenDecl token.TYPE specs ∈ decls ∧ ast.TypeSpecOf typeSpec ∈ specs.
Proof.
  induction decls as [|decl decls IH]; [done|]. simpl.
  assert (findInDecls decls name = Some typeSpec →
          ast.Name typeSpec = name ∧
          ∃ specs, ast.GenDecl token.TYPE specs ∈ decl :: decls ∧
                   ast.TypeSpecOf typeSpec ∈ specs) as Hrest.
  { intros (? & specs & ? & ?)%IH. split; [done|]. exists specs.
    split; [by apply list_elem_of_further|done]. }
  destruct decl as [|tok specs|]; try done.
  destruct (decide (tok = token.TYPE)) as [->|_]; [|done].
  destruct (findInSpecs specs name) as [ts|] eqn:Hspecs; [|done].
  intros [= ->]. apply findInSpecs_Some in Hspecs as [? ?].
  split; [done|]. exists specs. split; [apply list_elem_of_here|done].
Qed.

Lemma findInDecls_None (decls : list ast.Decl) (name : string) :
  findInDecls decls name = None ↔
  ∀ specs typeSpec,
    ast.GenDecl token.TYPE specs ∈ decls → ast.TypeSpecOf typeSpec ∈ specs →
    ast.Name typeSpec ≠ name.
Proof.
  induction decls as [|decl decls IH]; simpl.
  - split; [|done]. intros _ specs ts Hd. by apply elem_of_nil in Hd.
  - assert ((∀ specs ts, ast.GenDecl token.TYPE specs ∈ decl :: decls →
               ast.TypeSpecOf ts ∈ specs → ast.Name ts ≠ name) ↔
            (∀ specs ts, decl = ast.GenDecl token.TYPE specs →
               ast.TypeSpecOf ts ∈ specs → ast.Name ts ≠ name) ∧
            (∀ specs ts, ast.GenDecl token.TYPE specs ∈ decls →
               ast.TypeSpecOf ts ∈ specs → ast.Name ts ≠ name)) as ->.
    { split.
      - intros Hall. split; intros specs ts Hd; apply Hall.
        + rewrite Hd. apply list_elem_of_here.
        + by apply list_elem_of_further.
      - intros [Hhere Hthere] specs ts Hd. apply elem_of_cons in Hd as [Hd|Hd].
        + by apply Hhere.
        + by apply Hthere. }
    rewrite <- IH.
    destruct decl as [|tok specs|]; try (split; [by intros ?; split|by intros [_ ?]]).
    destruct (decide (tok = token.TYPE)) as [->|Htok].
    + destruct (findInSpecs specs name) as [ts|] eqn:Hspecs.
      * split; [done|]. intros [Hhere _].
        apply findInSpecs_Some in Hspecs as [Hname Hin].
        by destruct (Hhere specs ts).
      * split; [|by intros [_ ?]]. intros Hrest. split; [|done].
        intros specs' ts [= <-]. by apply findInSpecs_None.
    + split; [|by intros [_ ?]]. intros Hrest. split; [|done].
      intros specs' ts [= ? ?]. by destruct Htok.
Qed.

(** X16 -- what findASTType finds. A result is a type spec of the
    requested name, in a declaration of some file of the package that
    starts with the keyword type; there is no result exactly when no such
    declaration of any file holds a type spec of that name. A value or
    import spec, a function, and a spec in a declaration of another
    keyword are never returned. *)
Theorem findASTType_found (syntax : list ast.File) (name : string) :
  (∀ typeSpec,
     findASTType syntax name = Some typeSpec →
     ast.Name typeSpec = name ∧
     ∃ file specs,
       file ∈ syntax ∧ ast.GenDecl token.TYPE specs ∈ ast.Decls file ∧
       ast.TypeSpecOf typeSpec ∈ specs) ∧
  (findASTType syntax name = None ↔
   ∀ file specs typeSpec,
     file ∈ syntax → ast.GenDecl token.TYPE specs ∈ ast.Decls file →
     ast.TypeSpecOf typeSpec ∈ specs → ast.Name typeSpec ≠ name).
Proof.
  induction syntax as [|file syntax [IHsome IHnone]]; simpl.
  - split; [done|]. split; [|done]. intros _ file specs ts Hf. by apply elem_of_nil in Hf.
  - destruct (findInDecls (ast.Decls file) name) as [ts|] eqn:Hdecls.
    + apply findInDecls_Some in Hdecls as (Hname & specs & Hd & Hs). split.
      * intros typeSpec [= <-]. split; [done|]. exists file, specs.
        split; [apply list_elem_of_here|done].
      * split; [done|]. intros Hall.
        by destruct (Hall file specs ts (list_elem_of_here _ _) Hd Hs).
    + split.
      * intros typeSpec Hts. destruct (IHsome typeSpec Hts)
          as (Hname & file' & specs & Hf & Hd & Hs).
        split; [done|]. exists file', specs. split; [by apply list_elem_of_further|done].
      * rewrite IHnone. split.
        -- intros Hall file' specs ts Hf Hd Hs.
           apply elem_of_cons in Hf as [->|Hf]; [|by eapply Hall].
           by eapply findInDecls_None.
        -- intros Hall file' specs ts Hf. by apply Hall, list_elem_of_further.
Qed.

(** The theorem on the file of the demo: Search is found, as the spec at
    position 120; PriorityHigh, a constant, and Missing are not. *)
Lemma findASTType_found_witness :
  (∃ typeSpec,
     findASTType [Demo2.file] "Search" = Some typeSpec ∧
     ast.Name typeSpec = "Search") ∧
  (∀ specs typeSpec,
     ast.GenDecl token.TYPE specs ∈ ast.Decls Demo2.file →
     ast.TypeSpecOf typeSpec ∈ specs → ast.Name typeSpec ≠ "PriorityHigh").
Proof.
  split.
  - destruct (findASTType_found [Demo2.file] "Search") as [Hsome _].
    exists Demo2.searchSpec. split; [reflexivity|].
    by destruct (Hsome Demo2.searchSpec) as [Hname _].
  - destruct (findASTType_found [Demo2.file] "PriorityHigh") as [_ [Hnone _]].
    intros specs typeSpec. apply Hnone; [reflexivity|apply list_elem_of_here].
Defined.

(** X17 -- the first declaration wins. findASTType searches the files in
    their order, and a file the declarations in theirs: what is found in
    the first files is the result, and the later files are searched only
    when the first have nothing. *)
Theorem findASTType_app (syntax syntax' : list ast.File) (name : string) :
  findASTType (syntax ++ syntax') name =
    match findASTType syntax name with
    | Some typeSpec => Some typeSpec
    | None => findASTType syntax' name
    end.
Proof.
  induction syntax as [|file syntax IH]; [done|]. simpl.
  by destruct (findInDecls (ast.Decls file) name).
Qed.

(** ** From the struct to the schema, and main *)
Section end_to_end.
Context `{L : GoLib} (U : types.Universe).

(** The required flag of the descriptor of a field. *)
Lemma extractFieldInfo_Required (fuel : nat) (field : types.Var) (tag : string)
    (info : FieldInfo.t) :
  extractFieldInfo U fuel field tag = Some (Some info) →
  FieldInfo.Required info = bool_decide ("required" ∈ directives tag).
Proof.
  rewrite extractFieldInfo_eq. destruct (decide (kept field tag)); [|done].
  destruct (goTypeToJSONSchemaType U fuel (types.Var_Type field)) as [ty|]; [|done].
  simpl. intros [= <-].
  destruct (detectEnum_other_fields U (types.Var_Type field)
              (FieldInfo.set_Type ty (applySchemaTag tag
                 (FieldInfo.set_JSONName (wireName field tag)
                    (FieldInfo.zero (types.Var_Name field)))))) as (-> & _).
  simpl.
  destruct (applySchemaTag_parts tag
              (FieldInfo.set_JSONName (wireName field tag)
                 (FieldInfo.zero (types.Var_Name field)))) as (parts & -> & ->).
  by destruct (foldl_applyDirective
                 (FieldInfo.set_JSONName (wireName field tag)
                    (FieldInfo.zero (types.Var_Name field))) parts) as (-> & _).
Qed.
End end_to_end.

(** X18 -- from the fields of a struct to its schema. For the
    descriptors findType extracts from a struct, the keys of the
    properties of the schema are the wire names of the kept fields, in
    the order of the struct, and the required list is the wire names of
    those kept fields whose jsonschema tag has the directive required:
    an unexported or omitted field is never required, whatever its
    tag. *)
Theorem extractFields_schema `{L : GoLib} (U : types.Universe) (fuel i : nat)
    (fields : list types.Var) (tags : list string) (infos : list FieldInfo.t) :
  extractFields U fuel i fields tags = Some infos →
  (SchemaLit.Properties (schemaOf infos)).*1 =
    (λ ft, wireName ft.1 ft.2) <$>
      filter (λ ft, kept ft.1 ft.2) (taggedFields i fields tags) ∧
  SchemaLit.Required (schemaOf infos) =
    (λ ft, wireName ft.1 ft.2) <$>
      filter (λ ft, kept ft.1 ft.2 ∧ "required" ∈ directives ft.2)
             (taggedFields i fields tags).
Proof.
  simpl. unfold requiredOf.
  revert i infos. induction fields as [|field rest IH]; intros i infos; simpl.
  - by intros [= <-].
  - destruct (extractFieldInfo U fuel field (types.Tag tags i)) as [fieldInfo|] eqn:Hf;
      [|done].
    destruct (extractFields U fuel (S i) rest tags) as [infos'|] eqn:Hrest; [|done].
    intros [= <-]. unfold taggedFields. simpl.
    replace (i + 0) with i by lia.
    assert (imap ((λ j f, (f, types.Tag tags (i + j))) ∘ S) rest
            = taggedFields (S i) rest tags) as ->.
    { unfold taggedFields. apply imap_ext. intros j f _. simpl. do 2 f_equal. lia. }
    destruct (IH (S i) infos' Hrest) as [IHkeys IHreq].
    destruct fieldInfo as [info|].
    + pose proof (extractFieldInfo_Required U _ _ _ _ Hf) as Hreq.
      apply extractFieldInfo_Some in Hf as (Hk & _ & Hwire & _).
      rewrite (filter_cons_True (λ ft, kept ft.1 ft.2)) by done.
      rewrite !fmap_cons. simpl. rewrite Hwire, IHkeys. split; [done|].
      destruct (decide ("required" ∈ directives (types.Tag tags i))) as [Hd|Hd].
      * rewrite bool_decide_eq_true_2 in Hreq by done.
        rewrite !filter_cons_True by done.
        rewrite !fmap_cons. simpl. by rewrite Hwire, IHreq.
      * rewrite bool_decide_eq_false_2 in Hreq by done.
        rewrite (filter_cons_False (λ f, FieldInfo.Required f = true))
          by (by rewrite Hreq).
        rewrite filter_cons_False by (by intros [_ ?]). done.
    + assert (¬ kept field (types.Tag tags i)) as Hk.
      { intros Hk.
        destruct (goTypeToJSONSchemaType U fuel (types.Var_Type field)) as [ty|] eqn:Hty.
        - destruct (extractFieldInfo_kept U fuel field _ ty Hk Hty) as (? & ? & _).
          congruence.
        - assert (extractFieldInfo U fuel field (types.Tag tags i) = None)
            by by apply extractFieldInfo_None.
          congruence. }
      rewrite !filter_cons_False by (done || by intros [? _]). done.
Qed.

(** The theorem on the struct Search of the demo program: the
    properties are query, limit, Prio and Handle, and query is the one
    required name. *)
Lemma extractFields_schema_witness :
  ∃ infos,
    extractFields (L := AsciiLib.lib) Demo.U 2 0 Demo.searchFields Demo.searchTags
      = Some infos ∧
    (SchemaLit.Properties (schemaOf (L := AsciiLib.lib) infos)).*1
      = ["query"; "limit"; "Prio"; "Handle"] ∧
    SchemaLit.Required (schemaOf (L := AsciiLib.lib) infos) = ["query"].
Proof.
  destruct (extractFields (L := AsciiLib.lib) Demo.U 2 0 Demo.searchFields
              Demo.searchTags) as [infos|] eqn:Hinfos; [|by vm_compute in Hinfos].
  destruct (extractFields_schema (L := AsciiLib.lib) Demo.U 2 0 _ _ infos Hinfos)
    as [Hkeys Hrequired].
  exists infos. split; [done|]. rewrite Hkeys, Hrequired. split; by vm_compute.
Defined.

(** X19 -- an empty name in the list of types. When the -type flag has
    an entry that trims to the empty name, as before a doubled comma or
    after a trailing one, and the scope of the package has no object of
    empty name -- no Go scope has one -- main never writes: the entry is
    looked up as a type, and the run fails. *)
Theorem main_empty_name `{L : GoLib} (U : types.Universe) (outputFile : string)
    (Load : string → option (list Package)) (fuel : nat) (typeNames : string)
    (args : list string) :
  EmptyString ∈ typeList typeNames →
  (∀ dir pkg pkgs, Load dir = Some (pkg :: pkgs) →
                   types.scopeOf U (Package_Path pkg) !! EmptyString = None) →
  ∀ w, main U outputFile Load fuel typeNames args ≠ Ran (Ok w).
Proof.
  intros Hempty Hscope w. unfold main.
  destruct (decide (typeNames = EmptyString)); [done|]. intros [= HRun].
  destruct (Load _) as [[|pkg pkgs]|] eqn:HLoad; try done.
  unfold Run in HRun. destruct (decide (0 < Package_Errors pkg)); [done|].
  destruct (findTypes U fuel pkg (typeList typeNames) ∅) as [m| | |] eqn:Hm; try done.
  destruct (findTypes_lookup U fuel pkg _ ∅ m Hm) as [Hin _].
  destruct (Hin EmptyString Hempty) as (info & Hfind & _).
  unfold findType in Hfind. by rewrite (Hscope _ _ _ HLoad) in Hfind.
Qed.

(** The theorem on the demo program with a trailing comma after Search:
    main runs and fails on the empty name. *)
Lemma main_empty_name_witness :
  main (L := AsciiLib.lib) Demo.U EmptyString Demo2.Load 2 "Search," []
    = Ran (Fail (FindingType EmptyString (TypeNotFound EmptyString "demo"))) ∧
  ∀ w, main (L := AsciiLib.lib) Demo.U EmptyString Demo2.Load 2 "Search," []
       ≠ Ran (Ok w).
Proof.
  split; [by vm_compute|].
  apply (main_empty_name (L := AsciiLib.lib)).
  - apply list_elem_of_further, list_elem_of_here.
  - intros dir pkg pkgs. unfold Demo2.Load.
    destruct (decide (dir = ".")); [|done]. intros [= <- _]. by vm_compute.
Defined.
